(** * Run orchestration engine of the automated game player

    A shallow embedding of [src/errorHandler.js] (class [ErrorHandler]),
    [src/gamePlayer.js] (class [GamePlayer]) and [src/scheduler.js]
    (class [Scheduler]), and the properties the specification states
    about them.

    Conventions of the embedding.
    - JavaScript numbers that hold counts and milliseconds are [Z].
    - A JavaScript string is a [string]; the regular expressions of the
      source are all literal texts with the [i] flag, so a match is a
      case-insensitive substring search.  Without the [u] flag no
      character outside ASCII is identified with an ASCII letter, hence
      case folding only touches [A-Z].
    - An [await]ed promise is a [completion]: fulfilled, rejected, or
      never settled.
    - Time is virtual: the [World] carries a clock in milliseconds, every
      log record and every invocation of a guarded operation is stamped
      with it. *)

From Stdlib Require Import String Ascii ZArith List Lia Bool Arith.
From Stdlib Require Import DecimalString.
Import ListNotations.
Open Scope string_scope.
Open Scope Z_scope.

(** ** JavaScript strings and [RegExp.prototype.test] for literal patterns *)

Module Js.

Definition is_upper (c : ascii) : bool :=
  let n := nat_of_ascii c in (Nat.leb 65 n && Nat.leb n 90)%bool.

Definition lower (c : ascii) : ascii :=
  if is_upper c then ascii_of_nat (nat_of_ascii c + 32) else c.

Definition eq_ci (a b : ascii) : bool := Ascii.eqb (lower a) (lower b).

(** [starts_ci p s]: [p] matches at the first position of [s]. *)
Fixpoint starts_ci (p s : string) : bool :=
  match p, s with
  | EmptyString, _ => true
  | String _ _, EmptyString => false
  | String a p', String b s' => eq_ci a b && starts_ci p' s'
  end.

(** [/p/i.test(s)] for a literal [p]. *)
Fixpoint test_ci (p s : string) : bool :=
  starts_ci p s ||
  match s with
  | EmptyString => false
  | String _ s' => test_ci p s'
  end.

(** [String.prototype.includes]: case-sensitive search. *)
Fixpoint starts (p s : string) : bool :=
  match p, s with
  | EmptyString, _ => true
  | String _ _, EmptyString => false
  | String a p', String b s' => Ascii.eqb a b && starts p' s'
  end.

Fixpoint includes (s p : string) : bool :=
  starts p s ||
  match s with
  | EmptyString => false
  | String _ s' => includes s' p
  end.

Definition toLowerCase (s : string) : string :=
  string_of_list_ascii (map lower (list_ascii_of_string s)).

(** Template interpolation of an integer, [`${n}`]. *)
Definition show (n : Z) : string := NilZero.string_of_int (Z.to_int n).

(** The delay [setTimeout] really waits: a delay below 1 or above
    2147483647 is set to 1. *)
Definition timerDelay (ms : Z) : Z :=
  if (ms <? 1) || (2147483647 <? ms) then 1 else ms.

(** An [Error] object; only its [message] is ever inspected. *)
Record Error := mkError { message : string }.

(** The [TypeError] of reading [.message] off [null]. *)
Definition null_message_error : Error :=
  mkError "Cannot read properties of null (reading 'message')".

(** [s.split(sep)] scans [s] from the left; [skip] counts the characters
    of a separator just found that are still to be passed over, [cur] is
    the piece being collected. *)
Fixpoint split_go (sep s : string) (skip : nat) (cur : string) : list string :=
  match s with
  | EmptyString => [cur]
  | String c s' =>
      match skip with
      | S k => split_go sep s' k cur
      | O =>
          if starts sep s
          then cur :: split_go sep s' (pred (String.length sep)) EmptyString
          else split_go sep s' 0 (cur ++ String c EmptyString)
      end
  end.

(** With the empty separator [split] gives the characters one by one. *)
Definition split (s sep : string) : list string :=
  match sep with
  | EmptyString => map (fun c => String c EmptyString) (list_ascii_of_string s)
  | _ => split_go sep s 0 EmptyString
  end.

(** The white space and line terminators of the ASCII range; on a text
    of ASCII characters [trim] below is [String.prototype.trim]. *)
Definition is_space (c : ascii) : bool :=
  let n := nat_of_ascii c in
  (Nat.leb 9 n && Nat.leb n 13) || Nat.eqb n 32.

Fixpoint trimStart (s : string) : string :=
  match s with
  | EmptyString => EmptyString
  | String c s' => if is_space c then trimStart s' else s
  end.

Fixpoint trimEnd (s : string) : string :=
  match s with
  | EmptyString => EmptyString
  | String c s' =>
      match trimEnd s' with
      | EmptyString => if is_space c then EmptyString else String c EmptyString
      | t => String c t
      end
  end.

Definition trim (s : string) : string := trimEnd (trimStart s).

Definition isAscii (s : string) : bool :=
  forallb (fun c => Nat.ltb (nat_of_ascii c) 128) (list_ascii_of_string s).

Definition endsWith (s suffix : string) : bool :=
  let n := String.length s in
  let m := String.length suffix in
  Nat.leb m n && String.eqb (substring (n - m) m s) suffix.

(** An array element read by destructuring, in a template: a missing
    one prints as [undefined]. *)
Definition element (parts : list string) (i : nat) : string :=
  match nth_error parts i with
  | Some part => part
  | None => "undefined"
  end.

End Js.

(** ** Promises, the virtual world and the logger *)

Inductive completion (A : Type) : Type :=
| Fulfilled (a : A)
| Rejected (e : Js.Error)
| Pending.
Arguments Fulfilled {A} a.
Arguments Rejected {A} e.
Arguments Pending {A}.

Inductive Level := Info | Warn | LError | Success.

(** One call of [Logger.log]: the time stamp, the level, the message and
    the data object (as key/text pairs; stack traces are left out). *)
Record LogRecord := mkLog {
  stamp : Z;
  level : Level;
  text : string;
  data : list (string * string)
}.

(** What one invocation of a guarded operation does: it settles after
    [d] milliseconds, with a value or with an error, or it never
    settles. *)
Inductive attempt (V : Type) : Type :=
| Settles (d : Z) (r : V + Js.Error)
| Hangs.
Arguments Settles {V} d r.
Arguments Hangs {V}.

(** An entry of [GamePlayer.gameStats]. *)
Record ActivityEvent := mkActivity {
  timestamp : Z;
  activity : string;
  kind : string
}.

(** What the run does to the browser, the page and the log files. *)
Inductive Action :=
| ClickBody
| MouseClick (x4 y2 : Z)   (* x in quarter pixels, y in half pixels *)
| ClosePage
| CloseBrowser
| Finalize.

(** Everything mutable that the awaited calls and the event handlers of
    a run touch.  [gameStats] lives here because the console handler
    installed by [init] appends to it while other code is suspended.
    The flag [isGameActive] of the source is only ever written, never
    read; the embedding keeps its log line and leaves the flag out.
    The records are in the order of their time stamps as long as no
    operation has been abandoned to a timer (see [at_deadline]). *)
Record World := mkWorld {
  clock : Z;                        (* Date.now() *)
  log : list LogRecord;             (* the run's log file, oldest first *)
  started : list Z;                 (* start time of every operation() call *)
  gameStats : list ActivityEvent;   (* oldest first *)
  actions : list (Z * Action)       (* oldest first, with their time *)
}.

Definition world0 : World := mkWorld 0 [] [] [] [].

Definition calls (w : World) : nat := length (started w).

Definition tick (d : Z) (w : World) : World :=
  mkWorld (clock w + d) (log w) (started w) (gameStats w) (actions w).

Definition invoke (w : World) : World :=
  mkWorld (clock w) (log w) (started w ++ [clock w]) (gameStats w) (actions w).

Definition push_stat (text type : string) (w : World) : World :=
  mkWorld (clock w) (log w) (started w)
    (gameStats w ++ [mkActivity (clock w) text type]) (actions w).

Definition act (a : Action) (w : World) : World :=
  mkWorld (clock w) (log w) (started w) (gameStats w)
    (actions w ++ [(clock w, a)]).

(** Two worlds that differ at most in their log. *)
Definition logged (w w' : World) : Prop :=
  clock w' = clock w /\ started w' = started w
  /\ gameStats w' = gameStats w /\ actions w' = actions w.

(** The second world comes from the first without a call on the page
    and without an invocation of a guarded operation. *)
Definition offpage (w w' : World) : Prop :=
  started w' = started w /\ actions w' = actions w.

(** The live page handle as far as the error handler and the logger see
    it: [page.screenshot] for a given file name works or throws. *)
Record Page := mkPage { screenshotWorks : string -> bool }.

Module Logger.

Definition write (l : Level) (m : string) (d : list (string * string))
    (w : World) : World :=
  mkWorld (clock w) (log w ++ [mkLog (clock w) l m d]) (started w)
    (gameStats w) (actions w).

Definition info := write Info.
Definition warn := write Warn.
Definition error := write LError.
Definition success := write Success.

(** [Logger.screenshot]: the page call is wrapped in try/catch, so the
    method itself never rejects.  The embedding lets [page.screenshot]
    work or throw at once; that it settles, and how long it takes, is
    left to the environment. *)
Definition screenshot (page : Page) (name description : string) (w : World)
    : World :=
  if screenshotWorks page name
  then info ("Screenshot captured: " ++ name) [("description", description)] w
  else error ("Failed to capture screenshot: " ++ name) [] w.

(** A file of the log directory: what [fs.statSync] gives for its
    modification time, or throws, and whether [fs.unlinkSync] throws. *)
Record File := mkFile {
  fileName : string;
  mtime : Z + Js.Error;
  unlink : option Js.Error
}.

(** The [forEach] of [cleanupOldLogs]: the names deleted so far, and the
    error that ended the pass, if one did. *)
Fixpoint sweep (cutoff : Z) (files : list File) (w : World)
    : option Js.Error * list string * World :=
  match files with
  | [] => (None, [], w)
  | file :: rest =>
      match mtime file with
      | inr e => (Some e, [], w)
      | inl modified =>
          if (modified <? cutoff) && Js.endsWith (fileName file) ".log"
          then
            match unlink file with
            | Some e => (Some e, [], w)
            | None =>
                let w1 := info ("Cleaned up old log file: " ++ fileName file) [] w in
                let '(failure, deleted, w2) := sweep cutoff rest w1 in
                (failure, fileName file :: deleted, w2)
            end
          else sweep cutoff rest w
      end
  end.

(** [cleanupOldLogs]: [cutoff] is [cutoffDate], the present moved back
    by [retainLogs] days; [listing] is what [fs.readdirSync] gives, or
    throws.  The result names the files deleted. *)
Definition cleanupOldLogs (cutoff : Z) (listing : list File + Js.Error)
    (w : World) : list string * World :=
  match listing with
  | inr e => ([], warn "Error cleaning up old logs" [("error", Js.message e)] w)
  | inl files =>
      match sweep cutoff files w with
      | (Some e, deleted, w') =>
          (deleted, warn "Error cleaning up old logs" [("error", Js.message e)] w')
      | (None, deleted, w') => (deleted, w')
      end
  end.

End Logger.

(** ** [ErrorHandler] *)

Record ErrorHandling := mkErrorHandling {
  maxRetries : Z;
  retryDelay : Z;
  timeoutActions : Z;
  continueOnMinorErrors : bool;
  takeScreenshotOnError : bool
}.

Module ErrorHandler.

Definition minorErrorPatterns : list string :=
  [ "waiting for selector"; "element not found"; "timeout"; "timed out";
    "navigation failed"; "navigating frame was detached"; "net::err_" ].

Definition fatalPatterns : list string :=
  [ "browser disconnected"; "page crashed"; "out of memory";
    "cannot launch browser" ].

Definition isFatal (msg : string) : bool :=
  existsb (fun pattern => Js.test_ci pattern msg) fatalPatterns.

Definition isMinor (msg : string) : bool :=
  existsb (fun pattern => Js.test_ci pattern msg) minorErrorPatterns.

(** [shouldContinue(error)], statement by statement. *)
Definition shouldContinue (cfg : ErrorHandling) (error : Js.Error)
    (w : World) : bool * World :=
  if negb (continueOnMinorErrors cfg) then (false, w)
  else if isFatal (Js.message error) then
    (false, Logger.error "Fatal error detected, cannot continue"
              [("error", Js.message error)] w)
  else if isMinor (Js.message error) then
    (true, Logger.warn "Minor error detected, attempting to continue"
             [("error", Js.message error)] w)
  else
    (false, Logger.warn "Unknown error type, stopping execution for safety"
              [("error", Js.message error)] w).

(** [maxRetries || this.config.maxRetries] and
    [timeoutMs || this.config.timeoutActions]: [null] and [0] are falsy. *)
Definition or_default (given : option Z) (configured : Z) : Z :=
  match given with
  | Some v => if v =? 0 then configured else v
  | None => configured
  end.

(** [sleep(ms)]: a promise that a timer resolves. *)
Definition sleep (ms : Z) (w : World) : World := tick (Js.timerDelay ms) w.

Section Guard.
Context {V : Type}.
Variable cfg : ErrorHandling.

(** An async function over the world; it advances the clock itself. *)
Definition Async (A : Type) := World -> completion A * World.

Section Retry.
Variable operation : Async V.
Variable context : string.
Variable retries : Z.

(** The body of the [for] loop of [retryWithBackoff] and what follows
    it.  The loop runs [attempt] from 1 while [attempt <= retries + 1],
    that is [Z.to_nat (retries + 1)] times; [n] counts the iterations
    that remain. *)
Fixpoint attempts (n : nat) (attempt : Z) (lastError : option Js.Error)
    (w : World) : completion V * World :=
  match n with
  | O =>
      match lastError with
      | None => (Rejected Js.null_message_error, w)
      | Some e =>
          (Rejected e,
           Logger.error
             (context ++ " failed after " ++ Js.show (retries + 1) ++ " attempts")
             [("finalError", Js.message e)] w)
      end
  | S n' =>
      let w1 := Logger.info
                  (context ++ " - Attempt " ++ Js.show attempt ++ "/"
                     ++ Js.show (retries + 1)) [] w in
      match operation (invoke w1) with
      | (Fulfilled result, w2) =>
          (Fulfilled result,
           if 1 <? attempt
           then Logger.success
                  (context ++ " succeeded on attempt " ++ Js.show attempt) [] w2
           else w2)
      | (Rejected error, w2) =>
          let w3 := Logger.warn
                      (context ++ " failed on attempt " ++ Js.show attempt)
                      [("error", Js.message error);
                       ("attempt", Js.show attempt);
                       ("maxAttempts", Js.show (retries + 1))] w2 in
          let w4 :=
            if attempt <=? retries
            then sleep (retryDelay cfg)
                   (Logger.info
                      ("Waiting " ++ Js.show (retryDelay cfg) ++ "ms before retry...")
                      [] w3)
            else w3 in
          attempts n' (attempt + 1) (Some error) w4
      | (Pending, w2) => (Pending, w2)
      end
  end.

(** The world after a rejected attempt that took [d] ms, as the [catch]
    block of the loop leaves it. *)
Definition after_rejection (attempt : Z) (e : Js.Error) (d : Z) (w : World)
    : World :=
  let w1 := Logger.info
              (context ++ " - Attempt " ++ Js.show attempt ++ "/"
                 ++ Js.show (retries + 1)) [] w in
  let w3 := Logger.warn (context ++ " failed on attempt " ++ Js.show attempt)
              [("error", Js.message e); ("attempt", Js.show attempt);
               ("maxAttempts", Js.show (retries + 1))]
              (tick d (invoke w1)) in
  if attempt <=? retries
  then sleep (retryDelay cfg)
         (Logger.info
            ("Waiting " ++ Js.show (retryDelay cfg) ++ "ms before retry...") [] w3)
  else w3.

End Retry.

Definition retryWithBackoff (operation : Async V) (context : string)
    (maxRetries_ : option Z) : Async V :=
  let retries := or_default maxRetries_ (maxRetries cfg) in
  attempts operation context retries (Z.to_nat (retries + 1)) 1 None.

Definition timeout_error (timeout : Z) (context : string) : Js.Error :=
  Js.mkError ("Operation timed out after " ++ Js.show timeout ++ "ms: " ++ context).

(** The world when the timer of [withTimeout] wins the race at
    [deadline].  [Promise.race] cancels nothing: the abandoned operation
    runs on beside the caller, and what it does, before the deadline and
    after it, is on record under its own time stamps; only the clock is
    the caller's.  After a timeout the records are therefore no longer
    in the order of their stamps. *)
Definition at_deadline (deadline : Z) (w : World) : World :=
  mkWorld deadline (log w) (started w) (gameStats w) (actions w).

(** [Promise.race] of the operation against a timer.  The operation is
    started before the timer is created, so it wins when it settles at
    the deadline or before. *)
Definition withTimeout {A : Type} (operation : Async A)
    (timeoutMs : option Z) (context : string) : Async A :=
  fun w =>
    let timeout := or_default timeoutMs (timeoutActions cfg) in
    let deadline := clock w + Js.timerDelay timeout in
    match operation w with
    | (Pending, w') =>
        (Rejected (timeout_error timeout context), at_deadline deadline w')
    | (c, w') =>
        if clock w' <=? deadline then (c, w')
        else (Rejected (timeout_error timeout context), at_deadline deadline w')
    end.

Definition handleError (error : Js.Error) (page : option Page)
    (context : string) (w : World) : bool * World :=
  let w1 := Logger.error ("Error in " ++ context)
              [("message", Js.message error)] w in
  let w2 :=
    match takeScreenshotOnError cfg, page with
    | true, Some p =>
        Logger.screenshot p ("error-" ++ Js.show (clock w1))
          ("Error screenshot: " ++ context) w1
    | _, _ => w1
    end in
  shouldContinue cfg error w2.

(** The [catch] block of [safeExecute]: [None] is the [null] that signals
    a partial failure. *)
Definition recover (error : Js.Error) (page : option Page) (context : string)
    : Async (option V) :=
  fun w =>
    let (shouldContinue_, w') := handleError error page context w in
    if negb shouldContinue_ then (Rejected error, w')
    else (Fulfilled None, w').

(** [safeExecute]: [Some v] is the value [v] of the operation, handed on
    as it is; [None] is the [null] of the [catch] block. *)
Definition safeExecute (operation : Async V) (context : string)
    (page : option Page) : Async (option V) :=
  fun w =>
    match withTimeout (retryWithBackoff operation context None) None context w with
    | (Fulfilled v, w') => (Fulfilled (Some v), w')
    | (Rejected error, w') => recover error page context w'
    | (Pending, w') => (Pending, w')
    end.

End Guard.

(** What [shouldContinue] answers, as a function of the configuration
    and the message. *)
Definition verdict (cfg : ErrorHandling) (error : Js.Error) : bool :=
  continueOnMinorErrors cfg
  && negb (isFatal (Js.message error))
  && isMinor (Js.message error).

(** An operation given by what its k-th invocation does (k from 1). *)
Definition scripted {V : Type} (f : nat -> attempt V) : Async V :=
  fun w =>
    match f (calls w) with
    | Settles d (inl v) => (Fulfilled v, tick d w)
    | Settles d (inr e) => (Rejected e, tick d w)
    | Hangs => (Pending, w)
    end.

(** The error, or the value, that an invocation settles with. *)
Definition error_of {V : Type} (a : attempt V) : option Js.Error :=
  match a with
  | Settles _ (inr e) => Some e
  | _ => None
  end.

Definition value_of {V : Type} (a : attempt V) : option V :=
  match a with
  | Settles _ (inl v) => Some v
  | _ => None
  end.

Definition duration_of {V : Type} (a : attempt V) : Z :=
  match a with
  | Settles d _ => d
  | Hangs => 0
  end.

(** The time the invocations [from + 1 .. from + n] of [f] take together. *)
Fixpoint total_duration {V : Type} (f : nat -> attempt V) (from n : nat) : Z :=
  match n with
  | O => 0
  | S n' => duration_of (f (S from)) + total_duration f (S from) n'
  end.

End ErrorHandler.


(** ** [GamePlayer] *)

Record Viewport := mkViewport { width : Z; height : Z }.

Record Config := mkConfig {
  url : string;                 (* game.url *)
  maxScenarios : Z;             (* game.maxScenarios *)
  viewport : Viewport;          (* browser.viewport *)
  strategy : string;            (* choices.strategy *)
  pattern : list string;        (* choices.pattern *)
  captureConsole : bool;        (* logging.captureConsole *)
  errorHandling : ErrorHandling;
  scheduleEnabled : bool        (* schedule.enabled *)
}.

Record ConsoleMessage := mkConsole { msgText : string; msgType : string }.

(** The browser and the remote page: what each call the run makes on
    them does.  Rounds and calls are numbered from 1.  Apart from
    [page.goto], every call is taken to settle: it works or it throws. *)
Record Remote := mkRemote {
  launch : option Js.Error;              (* puppeteer.launch throws? *)
  newPage : option Js.Error;             (* browser.newPage throws? *)
  shots : Page;
  goto : nat -> attempt unit;            (* k-th page.goto *)
  consoleOnLoad : list ConsoleMessage;   (* console output of a page load *)
  startClick : option Js.Error;          (* page.click('body') of startGame *)
  consoleOnStart : list ConsoleMessage;
  advanceClick : nat -> option Js.Error; (* page.click('body') of round k *)
  consoleOnAdvance : nat -> list ConsoleMessage;
  mouseClick : nat -> option Js.Error;   (* page.mouse.click of round k *)
  fallbackClick : nat -> option Js.Error;
  consoleOnChoice : nat -> list ConsoleMessage;
  consoleOnSettle : nat -> list ConsoleMessage; (* in the wait closing round k *)
  coin : nat -> bool;                    (* Math.random() < 0.5, by choiceIndex *)
  pageClose : option Js.Error;
  browserClose : option Js.Error
}.

Module GamePlayer.

(** The fields of the instance that only its own methods write. *)
Record Player := mkPlayer {
  browser : bool;        (* this.browser is not null *)
  page : bool;           (* this.page is not null *)
  scenarioCount : nat;
  choiceIndex : nat
}.

Definition player0 : Player := mkPlayer false false 0 0.

Definition State : Type := Player * World.

(** Async methods of the instance: state passing with rejection. *)
Definition M (A : Type) : Type := State -> completion A * State.

Definition ret {A} (a : A) : M A := fun st => (Fulfilled a, st).

Definition throw {A} (e : Js.Error) : M A := fun st => (Rejected e, st).

Definition bind {A B} (m : M A) (k : A -> M B) : M B :=
  fun st =>
    match m st with
    | (Fulfilled a, st') => k a st'
    | (Rejected e, st') => (Rejected e, st')
    | (Pending, st') => (Pending, st')
    end.

(** A step that only touches the world and cannot fail. *)
Definition world (f : World -> World) : M unit :=
  fun st => (Fulfilled tt, (fst st, f (snd st))).

Definition player (f : Player -> Player) : M unit :=
  fun st => (Fulfilled tt, (f (fst st), snd st)).

Definition get : M State := fun st => (Fulfilled st, st).

(** A call on the page that works or throws. *)
Definition call (outcome : option Js.Error) (a : Action) : M unit :=
  fun st =>
    match outcome with
    | None => (Fulfilled tt, (fst st, act a (snd st)))
    | Some e => (Rejected e, (fst st, act a (snd st)))
    end.

(** [try { m } catch (error) { handler error }]. *)
Definition try_catch {A} (m : M A) (handler : Js.Error -> M A) : M A :=
  fun st =>
    match m st with
    | (Rejected e, st') => handler e st'
    | other => other
    end.

(** A method that always returns or throws, in whatever state it is
    called. *)
Definition settles {A} (m : M A) : Prop :=
  forall st, fst (m st) <> Pending.

Notation "x <- m ;; k" := (bind m (fun x => k))
  (at level 61, m at next level, right associativity).
Notation "m ;;; k" := (bind m (fun _ => k))
  (at level 61, right associativity).

Section Methods.
Variable config : Config.
Variable remote : Remote.

Definition activityWords : list string :=
  [ "stats"; "score"; "choice"; "scenario"; "result"; "victim"; "loaded";
    "ready"; "start"; "click"; "game"; "play" ].

Definition isActivity (text : string) : bool :=
  existsb (Js.includes text) activityWords
  || Js.includes (Js.toLowerCase text) "database"
  || Js.includes (Js.toLowerCase text) "victims".

(** How many of [msgs] end up in [gameStats]. *)
Definition activityCount (msgs : list ConsoleMessage) : nat :=
  length (filter (fun msg => isActivity (msgText msg)) msgs).

Definition analyzeConsoleMessage (msg : ConsoleMessage) (w : World) : World :=
  let text := msgText msg in
  let w1 :=
    if isActivity text
    then Logger.info "Game activity detected" [("activity", text)]
           (push_stat text (msgType msg) w)
    else w in
  if Js.includes text "game started" || Js.includes text "scenario"
     || Js.includes text "choice available"
  then Logger.info "Game active state detected" [] w1
  else w1.

(** The handler that [init] installs with [page.on('console', ...)]. *)
Definition onConsole (msg : ConsoleMessage) (w : World) : World :=
  let w1 :=
    if captureConsole config
    then Logger.info ("Console " ++ msgType msg ++ ": " ++ msgText msg) [] w
    else w in
  analyzeConsoleMessage msg w1.

Definition deliver (msgs : list ConsoleMessage) (w : World) : World :=
  fold_left (fun w' msg => onConsole msg w') msgs w.

Definition init : M bool :=
  world (Logger.info "Initializing browser..." []) ;;;
  match launch remote with
  | Some e =>
      world (Logger.error "Failed to initialize browser" [("error", Js.message e)]) ;;;
      ret false
  | None =>
      player (fun p => mkPlayer true (page p) (scenarioCount p) (choiceIndex p)) ;;;
      match newPage remote with
      | Some e =>
          world (Logger.error "Failed to initialize browser"
                   [("error", Js.message e)]) ;;;
          ret false
      | None =>
          player (fun p => mkPlayer (browser p) true (scenarioCount p) (choiceIndex p)) ;;;
          world (Logger.success "Browser initialized successfully" []) ;;;
          ret true
      end
  end.

(** The operation that [navigateToGame] hands to [safeExecute]. *)
Definition navigation : ErrorHandler.Async bool :=
  fun w =>
    let w1 := Logger.info ("Navigating to game: " ++ url config) [] w in
    match goto remote (calls w1) with
    | Settles d (inl _) =>
        let w2 := deliver (consoleOnLoad remote) (tick d w1) in
        let w3 := Logger.screenshot (shots remote) "01-game-loaded"
                    "Initial game page load" w2 in
        (Fulfilled true, Logger.success "Successfully navigated to game" [] w3)
    | Settles d (inr e) => (Rejected e, tick d w1)
    | Hangs => (Pending, w1)
    end.

Definition navigateToGame : M bool :=
  fun st =>
    let this_page := if page (fst st) then Some (shots remote) else None in
    match ErrorHandler.safeExecute (errorHandling config) navigation
            "Navigate to game" this_page (snd st) with
    | (Fulfilled r, w') =>
        (Fulfilled (match r with Some _ => true | None => false end), (fst st, w'))
    | (Rejected e, w') => (Rejected e, (fst st, w'))
    | (Pending, w') => (Pending, (fst st, w'))
    end.

Definition startGame : M bool :=
  world (Logger.info "Starting game by clicking screen..." []) ;;;
  try_catch
    (world (tick 5000) ;;;
     world (Logger.screenshot (shots remote) "02a-before-start" "Before starting game") ;;;
     world (Logger.info "Clicking to start the game..." []) ;;;
     call (startClick remote) ClickBody ;;;
     world (tick 3000) ;;;
     world (deliver (consoleOnStart remote)) ;;;
     world (Logger.screenshot (shots remote) "02b-after-click" "After clicking to start") ;;;
     world (Logger.success "Game click completed, ready to proceed" []) ;;;
     ret true)
    (fun error =>
       world (Logger.warn "Minor issue during start, continuing anyway"
                [("error", Js.message error)]) ;;;
       world (Logger.screenshot (shots remote) "02c-error-start" "Error during start") ;;;
       ret true).

(** [determineChoice]; [None] is [undefined], what indexing an empty
    pattern gives. *)
Definition determineChoice (p : Player) : option string :=
  if String.eqb (strategy config) "random" then
    Some (if coin remote (choiceIndex p) then "left" else "right")
  else if String.eqb (strategy config) "pattern" then
    match length (pattern config) with
    | O => None
    | S _ => nth_error (pattern config)
               (Nat.modulo (choiceIndex p) (length (pattern config)))
    end
  else if String.eqb (strategy config) "left" then Some "left"
  else if String.eqb (strategy config) "right" then Some "right"
  else Some "left".

Definition showChoice (c : option string) : string :=
  match c with Some s => s | None => "undefined" end.

Definition isLeft (c : option string) : bool :=
  match c with Some s => String.eqb s "left" | None => false end.

(** [try { m } finally { f }]. *)
Definition finally {A} (m : M A) (f : M unit) : M A :=
  fun st =>
    match m st with
    | (Pending, st') => (Pending, st')
    | (c, st') =>
        match f st' with
        | (Fulfilled _, st'') => (c, st'')
        | (Rejected e, st'') => (Rejected e, st'')
        | (Pending, st'') => (Pending, st'')
        end
    end.

Definition shot (name description : string) : M unit :=
  world (Logger.screenshot (shots remote) name description).

(** One pass through the body of the [for] loop of [playScenarios]:
    [k] is [i + 1], [actual] is [actualScenariosPlayed] on entry, the
    result is its value on exit. *)
Definition round (k : nat) (actual : nat) : M nat :=
  let n := Js.show (Z.of_nat k) in
  player (fun p => mkPlayer (browser p) (page p) k (choiceIndex p)) ;;;
  world (Logger.info ("Attempting to play scenario " ++ n) []) ;;;
  shot ("03a-scenario-" ++ n ++ "-start") ("Scenario " ++ n ++ " initial state") ;;;
  world (Logger.info "Advancing game state with click..." []) ;;;
  call (advanceClick remote k) ClickBody ;;;
  world (tick 8000) ;;;
  world (deliver (consoleOnAdvance remote k)) ;;;
  shot ("03b-scenario-" ++ n ++ "-ready") ("Scenario " ++ n ++ " ready for choice") ;;;
  st <- get ;;
  let choiceDirection := determineChoice (fst st) in
  let choice := showChoice choiceDirection in
  world (Logger.info ("Making " ++ choice ++ " choice for scenario " ++ n) []) ;;;
  try_catch
    (call (mouseClick remote k)
       (MouseClick (if isLeft choiceDirection
                    then width (viewport config)
                    else 3 * width (viewport config))
                   (height (viewport config))) ;;;
     world (Logger.success ("Clicked " ++ choice ++ " side of screen") []))
    (fun error =>
       world (Logger.warn ("Error with " ++ choice ++ " click, trying center")
                [("error", Js.message error)]) ;;;
       call (fallbackClick remote k) ClickBody) ;;;
  world (tick 3000) ;;;
  world (deliver (consoleOnChoice remote k)) ;;;
  shot ("04-choice-" ++ n ++ "-result") ("After " ++ choice ++ " choice result") ;;;
  st <- get ;;
  let statsCount := length (gameStats (snd st)) in
  actual' <-
    (if Nat.ltb actual statsCount
     then world (Logger.success
                   ("Scenario " ++ n ++ " appears successful - stats detected") []) ;;;
          ret (S actual)
     else world (Logger.warn
                   ("Scenario " ++ n ++ " may not have registered - no new stats") []) ;;;
          ret actual) ;;
  player (fun p => mkPlayer (browser p) (page p) (scenarioCount p) (S (choiceIndex p))) ;;;
  world (tick 2000) ;;;
  world (deliver (consoleOnSettle remote k)) ;;;
  ret actual'.

(** The clicks of round [k] go through: the advancing click works, and
    so does the directional click or the click that replaces it. *)
Definition clicks_work (k : nat) : Prop :=
  advanceClick remote k = None
  /\ (mouseClick remote k = None \/ fallbackClick remote k = None).

(** The loop [for (i = 0; i < maxScenarios; i++)]: [n] iterations remain,
    [i] have been made. *)
Fixpoint rounds (n : nat) (i : nat) (actual : nat) : M nat :=
  match n with
  | O => ret actual
  | S n' => actual' <- round (S i) actual ;; rounds n' (S i) actual'
  end.

Definition playScenarios : M nat :=
  world (Logger.info "Beginning intelligent scenario gameplay..." []) ;;;
  actualScenariosPlayed <- rounds (Z.to_nat (maxScenarios config)) 0 0 ;;
  shot "05-game-final" "Final game state" ;;;
  st <- get ;;
  world (if Nat.ltb 0 (length (gameStats (snd st)))
         then Logger.success "Game statistics collected"
                [("totalStats", Js.show (Z.of_nat (length (gameStats (snd st)))))]
         else Logger.warn "No game statistics were collected from console" []) ;;;
  world (Logger.success
           ("Completed " ++ Js.show (Z.of_nat (scenarioCount (fst st)))
              ++ " clicking interactions, "
              ++ Js.show (Z.of_nat actualScenariosPlayed) ++ " appeared successful")
           []) ;;;
  ret actualScenariosPlayed.

(** [cleanup]: release the page and the browser, then [logger.finalize()],
    which catches its own errors. *)
Definition cleanup : M unit :=
  finally
    (try_catch
       (st <- get ;;
        (if page (fst st) then call (pageClose remote) ClosePage else ret tt) ;;;
        (if browser (fst st) then call (browserClose remote) CloseBrowser else ret tt) ;;;
        world (Logger.info "Browser cleanup completed" []))
       (fun error =>
          world (Logger.error "Error during cleanup" [("error", Js.message error)])))
    (world (act Finalize)).

Definition require (ok : bool) (msg : string) : M unit :=
  if negb ok then throw (Js.mkError msg) else ret tt.

(** [playGame]: the value is the local [success]. *)
Definition playGame : M bool :=
  finally
    (try_catch
       (ok <- init ;;
        require ok "Failed to initialize browser" ;;;
        ok <- navigateToGame ;;
        require ok "Failed to navigate to game" ;;;
        ok <- startGame ;;
        require ok "Failed to start game" ;;;
        scenariosPlayed <- playScenarios ;;
        world (Logger.success
                 ("Game completed successfully! Played "
                    ++ Js.show (Z.of_nat scenariosPlayed) ++ " scenarios") []) ;;;
        st <- get ;;
        (if Nat.ltb 0 (length (gameStats (snd st)))
         then world (Logger.success
                "Game statistics were captured - indicating actual gameplay occurred!" [])
         else ret tt) ;;;
        ret true)
       (fun error =>
          world (Logger.error "Game play failed" [("error", Js.message error)]) ;;;
          ret false))
    cleanup.

(** [makeChoice]: one directional click outside the loop; the mouse
    behaves as in the scenario the player is in. *)
Definition makeChoice : M bool :=
  try_catch
    (st <- get ;;
     let choiceDirection := determineChoice (fst st) in
     let choice := showChoice choiceDirection in
     world (Logger.info
              ("Making " ++ choice ++ " choice for scenario "
                 ++ Js.show (Z.of_nat (scenarioCount (fst st)))) []) ;;;
     call (mouseClick remote (scenarioCount (fst st)))
       (MouseClick (if isLeft choiceDirection
                    then width (viewport config)
                    else 3 * width (viewport config))
                   (height (viewport config))) ;;;
     world (Logger.success ("Successfully clicked " ++ choice ++ " side of screen") []) ;;;
     player (fun p => mkPlayer (browser p) (page p) (scenarioCount p) (S (choiceIndex p))) ;;;
     ret true)
    (fun error =>
       world (Logger.error "Error making choice" [("error", Js.message error)]) ;;;
       ret false).

(** What follows the [while] loop of [waitForGameState]. *)
Definition timedOut : M bool :=
  world (Logger.warn "Timeout waiting for game state change" []) ;;;
  ret false.

(** The [while] loop of [waitForGameState]: [poll k] is the k-th
    [page.$$eval], which takes time and tells whether choice elements
    are on the page, or throws, or never settles.  Time does not run
    backwards, and every pass sleeps 500 ms, so the loop makes at most
    one pass per millisecond of [timeout]; [fuel] counts the passes that
    may remain. *)
Fixpoint polling (poll : nat -> attempt bool) (startTime timeout : Z)
    (fuel : nat) (k : nat) : M bool :=
  match fuel with
  | O => timedOut
  | S fuel' =>
      fun st =>
        if clock (snd st) - startTime <? timeout then
          match poll k with
          | Hangs => (Pending, st)
          | Settles d (inl true) =>
              (world (tick (Z.max 0 d)) ;;;
               world (Logger.info "Choice elements detected on page" []) ;;;
               ret true) st
          | Settles d _ =>
              (world (tick (Z.max 0 d)) ;;;
               world (ErrorHandler.sleep 500) ;;;
               polling poll startTime timeout fuel' (S k)) st
          end
        else timedOut st
  end.

Definition waitForGameState (poll : nat -> attempt bool) (timeout : Z) : M bool :=
  world (Logger.info "Waiting for game state change..." []) ;;;
  st <- get ;;
  polling poll (clock (snd st)) timeout (Z.to_nat timeout) 1.

(** The search of [findChoiceElement] through the selectors: [query] is
    [page.$], which finds an element, finds none, or throws. *)
Fixpoint firstFound (query : string -> option nat + Js.Error)
    (selectorList : list string) : option nat :=
  match selectorList with
  | [] => None
  | selector :: rest =>
      match query (Js.trim selector) with
      | inl (Some element) => Some element
      | _ => firstFound query rest
      end
  end.

Definition findChoiceElement (query : string -> option nat + Js.Error)
    (selectors : string) : option nat :=
  firstFound query (Js.split selectors ", ").

(** The search of [checkGameEnd]; it reports the selector as listed. *)
Fixpoint firstEnd (query : string -> option nat + Js.Error)
    (endSelectors : list string) : M bool :=
  match endSelectors with
  | [] => ret false
  | selector :: rest =>
      match query (Js.trim selector) with
      | inl (Some _) =>
          world (Logger.info "Game end detected" [("selector", selector)]) ;;;
          shot "05-game-end" "Game end screen" ;;;
          ret true
      | _ => firstEnd query rest
      end
  end.

(** [checkGameEnd]; [endSelector] is [config.game.endSelector], which may
    be missing, and then [split] throws. *)
Definition checkGameEnd (query : string -> option nat + Js.Error)
    (endSelector : option string) : M bool :=
  match endSelector with
  | None =>
      world (Logger.error "Error checking game end"
               [("error", "Cannot read properties of undefined (reading 'split')")]) ;;;
      ret false
  | Some selectors => firstEnd query (Js.split selectors ", ")
  end.

(** The error that ends round [k], if its clicks do not go through. *)
Definition clickFailure (k : nat) : option Js.Error :=
  match advanceClick remote k with
  | Some e => Some e
  | None =>
      match mouseClick remote k with
      | None => None
      | Some _ => fallbackClick remote k
      end
  end.

(** The directional click made with the choice index at [i]. *)
Definition directionalClick (i : nat) : Action :=
  MouseClick (if isLeft (determineChoice (mkPlayer true true 0 i))
              then width (viewport config)
              else 3 * width (viewport config))
             (height (viewport config)).

End Methods.

Definition isDirectional (a : Action) : bool :=
  match a with
  | MouseClick _ _ => true
  | _ => false
  end.

End GamePlayer.

(** ** [Scheduler] *)

Module Scheduler.

(** How the session runner started by [runGame] ends: [new GamePlayer]
    or [playGame] throws, or [playGame] returns its verdict. *)
Inductive Outcome := Returns (success : bool) | Throws (e : Js.Error).

Inductive Mark :=
| Skipped            (* "Game is already running, skipping this execution" *)
| FlagSet (b : bool) (* an assignment to this.isRunning *)
| RunnerInvoked      (* gamePlayer.playGame() is called *)
| Returned (b : bool).  (* a call of runGame returns b *)

(** [inFlight] counts the calls of [playGame] that have not settled. *)
Record Scheduler := mkScheduler {
  isRunning : bool;
  inFlight : nat;
  trace : list Mark
}.

Definition fresh : Scheduler := mkScheduler false 0 [].

(** [runGame] has one suspension point, [await gamePlayer.playGame()].
    [runGame_enter] is the code that runs when it is called, up to that
    point; [ctor] is what [new GamePlayer(this.config)] does.  The result
    is [Some b] when the call has already returned [b]. *)
Definition runGame_enter (ctor : option Js.Error) (s : Scheduler)
    : option bool * Scheduler :=
  if isRunning s then
    (Some false, mkScheduler (isRunning s) (inFlight s)
                   (trace s ++ [Skipped; Returned false]))
  else
    match ctor with
    | Some _ =>
        (Some false, mkScheduler false (inFlight s)
                       (trace s ++ [FlagSet true; FlagSet false; Returned false]))
    | None =>
        (None, mkScheduler true (S (inFlight s))
                 (trace s ++ [FlagSet true; RunnerInvoked]))
    end.

(** The code of [runGame] that runs once the awaited promise settles:
    the rest of [try], or [catch], then [finally]. *)
Definition runGame_resume (o : Outcome) (s : Scheduler) : bool * Scheduler :=
  let result := match o with Returns success => success | Throws _ => false end in
  (result, mkScheduler false (pred (inFlight s))
             (trace s ++ [FlagSet false; Returned result])).

(** What can happen to a scheduler: a trigger fires (cron tick or manual
    run), or the run in flight settles. *)
Inductive Event :=
| Trigger (ctor : option Js.Error)
| Settle (o : Outcome).

Definition step (s : Scheduler) (e : Event) : option Scheduler :=
  match e with
  | Trigger ctor => Some (snd (runGame_enter ctor s))
  | Settle o =>
      match inFlight s with
      | O => None
      | S _ => Some (snd (runGame_resume o s))
      end
  end.

Fixpoint run (s : Scheduler) (es : list Event) : option Scheduler :=
  match es with
  | [] => Some s
  | e :: es' =>
      match step s e with
      | Some s' => run s' es'
      | None => None
      end
  end.

(** The flag is up exactly while one run is in flight. *)
Definition guarded (s : Scheduler) : Prop :=
  (isRunning s = true /\ inFlight s = 1%nat)
  \/ (isRunning s = false /\ inFlight s = 0%nat).

Definition isInvocation (m : Mark) : bool :=
  match m with RunnerInvoked => true | _ => false end.

Definition isReturn (m : Mark) : bool :=
  match m with Returned _ => true | _ => false end.

Definition isTrigger (e : Event) : bool :=
  match e with Trigger _ => true | Settle _ => false end.

(** node-cron as far as the scheduler uses it: the tasks that are
    scheduled, each under the handle it was given. *)
Record Cron := mkCron {
  tasks : list (nat * string);
  issued : nat
}.

(** [this.cronJob] and what the scheduler has printed. *)
Record Timetable := mkTimetable {
  cronJob : option nat;
  cron : Cron;
  printed : list string
}.

Definition idle : Timetable := mkTimetable None (mkCron [] 0) [].

Definition say (line : string) (t : Timetable) : Timetable :=
  mkTimetable (cronJob t) (cron t) (printed t ++ [line]).

Definition cronExpression (dailyRunTime : string) : string :=
  let parts := Js.split dailyRunTime ":" in
  Js.element parts 1 ++ " " ++ Js.element parts 0 ++ " * * *".

(** [start]; [accepts] tells the expressions [cron.schedule] takes from
    those it throws on. *)
Definition start (enabled : bool) (dailyRunTime : string)
    (accepts : string -> option Js.Error) (t : Timetable)
    : (bool + Js.Error) * Timetable :=
  if negb enabled then
    (inl false, say "Scheduling is disabled in configuration" t)
  else
    let expression := cronExpression dailyRunTime in
    let t1 := say ("Setting up daily schedule: " ++ dailyRunTime
                     ++ " (cron: " ++ expression ++ ")") t in
    match accepts expression with
    | Some e => (inr e, t1)
    | None =>
        let handle := issued (cron t1) in
        let t2 := mkTimetable (Some handle)
                    (mkCron (tasks (cron t1) ++ [(handle, expression)]) (S handle))
                    (printed t1) in
        (inl true, say "Scheduler started successfully" t2)
    end.

(** [stop]: [destroy] takes the task of the handle off the schedule. *)
Definition stop (t : Timetable) : Timetable :=
  match cronJob t with
  | Some handle =>
      say "Scheduler stopped"
        (mkTimetable None
           (mkCron (filter (fun task => negb (Nat.eqb (fst task) handle))
                      (tasks (cron t)))
                   (issued (cron t)))
           (printed t))
  | None => t
  end.

End Scheduler.

(** ** The command line ([index.js]) *)

Module Cli.

Inductive Mode := Help | Status | Manual | Daemon.

Definition includes (args : list string) (flag : string) : bool :=
  existsb (String.eqb flag) args.

(** The flags as [main] consults them. *)
Definition mode (args : list string) : Mode :=
  let isManual := includes args "--manual" || includes args "-m" in
  let isStatus := includes args "--status" || includes args "-s" in
  let isHelp := includes args "--help" || includes args "-h" in
  if isHelp then Help
  else if isStatus then Status
  else if isManual then Manual
  else Daemon.

(** How a mode ends: [process.exit] with a code, by the branch that
    calls it; or the scheduler stays in service; or an awaited promise
    never settles. *)
Inductive Ending :=
| ExitVerdict (code : Z)      (* runManual *)
| ExitDisabled (code : Z)     (* startScheduler, scheduling disabled *)
| ExitNotStarted (code : Z)   (* startScheduler, "Failed to start scheduler" *)
| ExitFailure (code : Z)      (* main().catch *)
| InService
| Stalled.

Definition exitCode (e : Ending) : option Z :=
  match e with
  | ExitVerdict c | ExitDisabled c | ExitNotStarted c | ExitFailure c => Some c
  | InService | Stalled => None
  end.

(** [runManual]; [ctor] is what [new GamePlayer(config)] does. *)
Definition runManual (config : Config) (remote : Remote)
    (ctor : option Js.Error) : Ending :=
  match ctor with
  | Some _ => ExitFailure 1
  | None =>
      match fst (GamePlayer.playGame config remote (GamePlayer.player0, world0)) with
      | Fulfilled success => ExitVerdict (if success then 0 else 1)
      | Rejected _ => ExitFailure 1
      | Pending => Stalled
      end
  end.

(** [startScheduler]. *)
Definition startScheduler (enabled : bool) (dailyRunTime : string)
    (accepts : string -> option Js.Error) : Ending * Scheduler.Timetable :=
  if negb enabled then (ExitDisabled 0, Scheduler.idle)
  else
    match Scheduler.start enabled dailyRunTime accepts Scheduler.idle with
    | (inl true, t) => (InService, t)
    | (inl false, t) => (ExitNotStarted 1, t)
    | (inr _, t) => (ExitFailure 1, t)
    end.

End Cli.

(** ** Sample configurations and remotes *)

Module Sample.

Definition errorHandling : ErrorHandling := mkErrorHandling 3 1000 30000 true true.


Definition config (scenarios : Z) (strategy_ : string) : Config :=
  mkConfig "https://trollilopolis.com" scenarios (mkViewport 1280 720)
    strategy_ ["left"; "right"] true errorHandling true.

Definition refused : Js.Error := Js.mkError "net::ERR_CONNECTION_REFUSED".

Definition always_refused : nat -> attempt bool :=
  fun _ => Settles 50 (inr refused).

(** Rejects three times, then loads. *)
Definition fourth_time_lucky : nat -> attempt bool :=
  fun k => if Nat.leb k 3 then Settles 50 (inr refused)
           else Settles 200 (inl true).

(** An operation that never settles. *)
Definition hanging : nat -> attempt bool := fun _ => Hangs.

(** A page that loads in 200 ms, prints [loaded] on its console when it
    has, and then stays silent; every call on it works. *)
Definition quiet : Remote :=
  mkRemote None None (mkPage (fun _ => true))
    (fun _ => Settles 200 (inl tt))
    [mkConsole "assets loaded" "log"]
    None []
    (fun _ => None) (fun _ => [])
    (fun _ => None) (fun _ => None) (fun _ => [])
    (fun _ => [])
    (fun _ => true)
    None None.

(** A site that refuses every connection after 50 ms. *)
Definition unreachable : Remote :=
  mkRemote None None (mkPage (fun _ => true))
    (fun _ => Settles 50 (inr refused))
    []
    None []
    (fun _ => None) (fun _ => [])
    (fun _ => None) (fun _ => None) (fun _ => [])
    (fun _ => [])
    (fun _ => true)
    None None.

(** [quiet] with a console line after every choice. *)
Definition chatty : Remote :=
  mkRemote None None (mkPage (fun _ => true))
    (fun _ => Settles 200 (inl tt))
    [mkConsole "assets loaded" "log"]
    None []
    (fun _ => None) (fun _ => [])
    (fun _ => None) (fun _ => None)
    (fun _ => [mkConsole "choice recorded" "log"])
    (fun _ => [])
    (fun _ => true)
    None None.

Definition detached : Js.Error := Js.mkError "Node is detached from document".

(** [quiet] with a page that loses its body in round 2. *)
Definition brittle : Remote :=
  mkRemote None None (mkPage (fun _ => true))
    (fun _ => Settles 200 (inl tt))
    [mkConsole "assets loaded" "log"]
    None []
    (fun k => if Nat.eqb k 2 then Some detached else None) (fun _ => [])
    (fun _ => None) (fun _ => None) (fun _ => [])
    (fun _ => [])
    (fun _ => true)
    None None.

(** A log directory: three files of day 10 and one of day 40. *)
Definition shelf : list Logger.File :=
  [ Logger.mkFile "2025-01-10T09-30-00.log" (inl 10) None;
    Logger.mkFile "2025-01-10T09-30-00-network.json" (inl 10) None;
    Logger.mkFile "notes.txt" (inl 10) None;
    Logger.mkFile "2025-02-09T09-30-00.log" (inl 40) None ].

(** A page on which [.choice-right] is element 7, [#broken] makes the
    query throw, and nothing else is found. *)
Definition dom (selector : string) : option nat + Js.Error :=
  if String.eqb selector ".choice-right" then inl (Some 7%nat)
  else if String.eqb selector "#broken" then inr (Js.mkError "not a valid selector")
  else inl None.

(** The stages of [playGame] that precede [playScenarios]; [loaded] is
    the state in which the run on [quiet] enters the scenario loop. *)
Definition setup (cfg : Config) (remote : Remote)
    : completion bool * GamePlayer.State :=
  GamePlayer.bind (GamePlayer.init remote)
    (fun _ => GamePlayer.bind (GamePlayer.navigateToGame cfg remote)
                (fun _ => GamePlayer.startGame cfg remote))
    (GamePlayer.player0, world0).

Definition loaded : GamePlayer.State := snd (setup (config 1 "left") quiet).

End Sample.

(** * Properties *)

(** ** Matching *)

Section Matching.



Lemma existsb_member {A} (f : A -> bool) (l : list A) (x : A) :
  In x l -> f x = true -> existsb f l = true.
Proof. intros Hin Hf. apply existsb_exists. exists x. split; assumption. Qed.

Lemma existsb_none {A} (f : A -> bool) (l : list A) :
  (forall x, In x l -> f x = false) -> existsb f l = false.
Proof.
  induction l as [|a l IH]; intros H; [reflexivity|].
  simpl. rewrite (H a (or_introl eq_refl)), IH; [reflexivity|].
  intros x Hx. apply H. right. exact Hx.
Qed.


End Matching.

(** ** The failure classifier *)

Section Classifier.
Import ErrorHandler.

Lemma handleError_verdict cfg error page context w :
  exists w', handleError cfg error page context w = shouldContinue cfg error w'.
Proof. unfold handleError. eexists. reflexivity. Qed.

Lemma shouldContinue_verdict cfg error w :
  fst (shouldContinue cfg error w) =
  continueOnMinorErrors cfg
  && negb (isFatal (Js.message error))
  && isMinor (Js.message error).
Proof.
  unfold shouldContinue.
  destruct (continueOnMinorErrors cfg); simpl; [|reflexivity].
  destruct (isFatal (Js.message error)); simpl; [reflexivity|].
  destruct (isMinor (Js.message error)); reflexivity.
Qed.

(** C6. An error whose message matches one of the fatal patterns is
    classified Abort: [shouldContinue] returns [false] (and so does
    [handleError], which returns its verdict) for every configuration,
    [continueOnMinorErrors = true] included, and whether or not the
    message also matches a minor pattern. *)
Theorem fatal_error_aborts cfg error w pattern :
  In pattern fatalPatterns ->
  Js.test_ci pattern (Js.message error) = true ->
  fst (shouldContinue cfg error w) = false
  /\ forall page context, fst (handleError cfg error page context w) = false.
Proof.
  intros Hin Hmatch.
  assert (Hf : isFatal (Js.message error) = true)
    by (unfold isFatal; eapply existsb_member; eauto).
  split.
  - rewrite shouldContinue_verdict, Hf. simpl. rewrite andb_false_r. reflexivity.
  - intros page context.
    destruct (handleError_verdict cfg error page context w) as [w' ->].
    rewrite shouldContinue_verdict, Hf. simpl. rewrite andb_false_r. reflexivity.
Qed.

(** A message that matches both a fatal and a minor pattern, under a
    configuration that continues on minor errors. *)
Lemma fatal_error_aborts_witness :
  isMinor "Page crashed: timeout while waiting" = true
  /\ fst (shouldContinue (mkErrorHandling 3 1000 30000 true true)
            (Js.mkError "Page crashed: timeout while waiting") world0) = false.
Proof.
  split; [reflexivity|].
  apply (fatal_error_aborts (mkErrorHandling 3 1000 30000 true true)
           (Js.mkError "Page crashed: timeout while waiting") world0
           "page crashed").
  - simpl. right. left. reflexivity.
  - reflexivity.
Defined.

(** C7. An error whose message matches no fatal and no minor pattern is
    classified Abort, for every configuration. *)
Theorem unknown_error_aborts cfg error w :
  (forall pattern, In pattern fatalPatterns ->
     Js.test_ci pattern (Js.message error) = false) ->
  (forall pattern, In pattern minorErrorPatterns ->
     Js.test_ci pattern (Js.message error) = false) ->
  fst (shouldContinue cfg error w) = false
  /\ forall page context, fst (handleError cfg error page context w) = false.
Proof.
  intros _ Hminor.
  assert (Hm : isMinor (Js.message error) = false)
    by (unfold isMinor; apply existsb_none; exact Hminor).
  split.
  - rewrite shouldContinue_verdict, Hm. apply andb_false_r.
  - intros page context.
    destruct (handleError_verdict cfg error page context w) as [w' ->].
    rewrite shouldContinue_verdict, Hm. apply andb_false_r.
Qed.

Lemma unknown_error_aborts_witness :
  fst (shouldContinue (mkErrorHandling 3 1000 30000 true true)
         (Js.mkError "Protocol error: target closed") world0) = false.
Proof.
  apply (unknown_error_aborts (mkErrorHandling 3 1000 30000 true true)
           (Js.mkError "Protocol error: target closed") world0).
  - intros pattern Hin. simpl in Hin.
    repeat (destruct Hin as [<-|Hin]; [reflexivity|]). destruct Hin.
  - intros pattern Hin. simpl in Hin.
    repeat (destruct Hin as [<-|Hin]; [reflexivity|]). destruct Hin.
Defined.

End Classifier.

(** ** The choice strategy *)

Section Choice.
Import GamePlayer.

(** C10. With a strategy that is none of [random], [pattern], [left]
    and [right], [determineChoice] is ['left'] whatever the state of the
    player, hence on every round. *)
Theorem unknown_strategy_chooses_left config remote p :
  strategy config <> "random" ->
  strategy config <> "pattern" ->
  strategy config <> "left" ->
  strategy config <> "right" ->
  determineChoice config remote p = Some "left".
Proof.
  intros H1 H2 H3 H4. unfold determineChoice.
  apply String.eqb_neq in H1, H2, H3, H4.
  rewrite H1, H2, H3, H4. reflexivity.
Qed.

End Choice.

Section ChoiceWitness.
Import GamePlayer.

Lemma unknown_strategy_chooses_left_witness :
  determineChoice (Sample.config 3 "alternate") Sample.quiet
    (mkPlayer true true 2 1) = Some "left".
Proof.
  apply (unknown_strategy_chooses_left (Sample.config 3 "alternate")
           Sample.quiet (mkPlayer true true 2 1)); discriminate.
Defined.

End ChoiceWitness.

(** ** Retry with backoff *)

Section RetryFacts.
Import ErrorHandler.
Context {V : Type}.
Variable cfg : ErrorHandling.
Variable f : nat -> attempt V.
Variable context : string.
Variable retries : Z.

Lemma calls_invoke w : calls (invoke w) = S (calls w).
Proof. unfold calls, invoke. simpl. rewrite length_app, Nat.add_comm. reflexivity. Qed.

Lemma calls_write l m d w : calls (Logger.write l m d w) = calls w.
Proof. reflexivity. Qed.

Lemma calls_tick d w : calls (tick d w) = calls w.
Proof. reflexivity. Qed.

Lemma calls_after_rejection attempt e d w :
  calls (after_rejection cfg context retries attempt e d w) = S (calls w).
Proof.
  unfold after_rejection, sleep, Logger.info, Logger.warn. cbv zeta.
  destruct (attempt <=? retries);
    rewrite ?calls_tick, ?calls_write, ?calls_tick, calls_invoke; reflexivity.
Qed.

Lemma attempts_rejected n attempt last w d e :
  f (S (calls w)) = Settles d (inr e) ->
  attempts cfg (scripted f) context retries (S n) attempt last w =
  attempts cfg (scripted f) context retries n (attempt + 1) (Some e)
    (after_rejection cfg context retries attempt e d w).
Proof.
  intros Hf. cbn [attempts]. unfold scripted at 1, Logger.info.
  rewrite calls_invoke, calls_write, Hf. reflexivity.
Qed.

Lemma attempts_fulfilled n attempt last w d v :
  f (S (calls w)) = Settles d (inl v) ->
  exists w',
    attempts cfg (scripted f) context retries (S n) attempt last w
    = (Fulfilled v, w')
    /\ calls w' = S (calls w).
Proof.
  intros Hf. cbn [attempts]. unfold scripted at 1, Logger.info, Logger.success.
  rewrite calls_invoke, calls_write, Hf.
  eexists. split; [reflexivity|].
  destruct (1 <? attempt); rewrite ?calls_write, calls_tick, calls_invoke;
    reflexivity.
Qed.

(** When the next [n] invocations all reject, the loop makes exactly
    those [n] invocations and then throws: the error of the last one, or
    what [lastError] held when no iteration was left. *)
Lemma attempts_exhausted n : forall attempt last w,
  (forall k, (calls w < k <= calls w + n)%nat -> error_of (f k) <> None) ->
  exists e w',
    attempts cfg (scripted f) context retries n attempt last w = (Rejected e, w')
    /\ calls w' = (calls w + n)%nat
    /\ match n with
       | O => e = match last with
                  | Some e0 => e0
                  | None => Js.null_message_error
                  end
       | S _ => error_of (f (calls w + n)%nat) = Some e
       end.
Proof.
  induction n as [|n IH]; intros attempt last w Hfail.
  - destruct last as [e0|]; simpl; eexists; eexists;
      (split; [reflexivity|]); split;
      rewrite ?calls_write, ?Nat.add_0_r; reflexivity.
  - assert (H1 : error_of (f (S (calls w))) <> None) by (apply Hfail; lia).
    destruct (f (S (calls w))) as [d [v|e]|] eqn:Hf; simpl in H1;
      try congruence.
    rewrite (attempts_rejected n attempt last w d e Hf).
    destruct (IH (attempt + 1) (Some e) (after_rejection cfg context retries attempt e d w))
      as (e' & w' & Hrun & Hcalls & Hlast).
    { intros k Hk. rewrite calls_after_rejection in Hk. apply Hfail. lia. }
    rewrite calls_after_rejection in Hcalls, Hlast.
    exists e', w'. split; [exact Hrun|]. split; [lia|].
    destruct n as [|n'].
    + subst e'. replace (calls w + 1)%nat with (S (calls w)) by lia.
      rewrite Hf. reflexivity.
    + replace (calls w + S (S n'))%nat with (S (calls w) + S n')%nat by lia.
      exact Hlast.
Qed.

(** When the next [m] invocations reject and the one after them
    fulfils, with an iteration left for it, the loop returns that value
    after [m + 1] invocations. *)
Lemma attempts_recover m : forall n attempt last w v,
  (m < n)%nat ->
  (forall k, (calls w < k <= calls w + m)%nat -> error_of (f k) <> None) ->
  value_of (f (calls w + m + 1)%nat) = Some v ->
  exists w',
    attempts cfg (scripted f) context retries n attempt last w = (Fulfilled v, w')
    /\ calls w' = (calls w + m + 1)%nat.
Proof.
  induction m as [|m IH]; intros n attempt last w v Hlt Hfail Hok.
  - destruct n as [|n]; [lia|].
    replace (calls w + 0 + 1)%nat with (S (calls w)) in * by lia.
    destruct (f (S (calls w))) as [d [v'|e]|] eqn:Hf; simpl in Hok;
      try discriminate.
    injection Hok as ->.
    destruct (attempts_fulfilled n attempt last w d v Hf) as (w' & Hrun & Hc).
    exists w'. split; [exact Hrun|lia].
  - destruct n as [|n]; [lia|].
    assert (H1 : error_of (f (S (calls w))) <> None) by (apply Hfail; lia).
    destruct (f (S (calls w))) as [d [v'|e]|] eqn:Hf; simpl in H1;
      try congruence.
    rewrite (attempts_rejected n attempt last w d e Hf).
    destruct (IH n (attempt + 1) (Some e) (after_rejection cfg context retries attempt e d w) v)
      as (w' & Hrun & Hc).
    + lia.
    + intros k Hk. rewrite calls_after_rejection in Hk. apply Hfail. lia.
    + rewrite calls_after_rejection.
      replace (S (calls w) + m + 1)%nat with (calls w + S m + 1)%nat by lia.
      exact Hok.
    + rewrite calls_after_rejection in Hc. exists w'. split; [exact Hrun|lia].
Qed.

End RetryFacts.

Section RetryClaims.
Import ErrorHandler.
Context {V : Type}.

(** C4. With [maxRetries = r] configured, an operation that rejects on
    every invocation makes [retryWithBackoff] throw after exactly
    [r + 1] invocations, and what it throws is the error of the last
    of them. *)
Theorem retry_exhausted_after_all_attempts
    cfg (f : nat -> attempt V) context w (r : nat) :
  maxRetries cfg = Z.of_nat r ->
  (forall k, error_of (f k) <> None) ->
  exists e w',
    retryWithBackoff cfg (scripted f) context None w = (Rejected e, w')
    /\ calls w' = (calls w + (r + 1))%nat
    /\ error_of (f (calls w + (r + 1))%nat) = Some e.
Proof.
  intros Hr Hfail. unfold retryWithBackoff, or_default. rewrite Hr.
  replace (Z.to_nat (Z.of_nat r + 1)) with (r + 1)%nat by lia.
  destruct (attempts_exhausted cfg f context (Z.of_nat r) (r + 1) 1 None w)
    as (e & w' & Hrun & Hcalls & Hlast).
  { intros k _. apply Hfail. }
  exists e, w'. split; [exact Hrun|]. split; [exact Hcalls|].
  replace (r + 1)%nat with (S r) in Hlast by lia.
  replace (r + 1)%nat with (S r) by lia. exact Hlast.
Qed.

(** C5. With [maxRetries = r] configured, an operation that rejects [r]
    times and fulfils on invocation [r + 1] makes [retryWithBackoff]
    return that value. *)
Theorem retry_returns_late_success
    cfg (f : nat -> attempt V) context w (r : nat) v :
  maxRetries cfg = Z.of_nat r ->
  (forall k, (calls w < k <= calls w + r)%nat -> error_of (f k) <> None) ->
  value_of (f (calls w + r + 1)%nat) = Some v ->
  exists w',
    retryWithBackoff cfg (scripted f) context None w = (Fulfilled v, w')
    /\ calls w' = (calls w + r + 1)%nat.
Proof.
  intros Hr Hfail Hok. unfold retryWithBackoff, or_default. rewrite Hr.
  replace (Z.to_nat (Z.of_nat r + 1)) with (r + 1)%nat by lia.
  apply attempts_recover; [lia|exact Hfail|exact Hok].
Qed.

End RetryClaims.

Section RetryExamples.
Import ErrorHandler.

Lemma retry_exhausted_after_all_attempts_witness :
  exists e w',
    retryWithBackoff Sample.errorHandling (scripted Sample.always_refused)
      "Navigate to game" None world0 = (Rejected e, w')
    /\ calls w' = 4%nat
    /\ error_of (Sample.always_refused 4) = Some e.
Proof.
  apply (retry_exhausted_after_all_attempts Sample.errorHandling Sample.always_refused
           "Navigate to game" world0 3).
  - reflexivity.
  - intros k. discriminate.
Defined.

Lemma retry_returns_late_success_witness :
  exists w',
    retryWithBackoff Sample.errorHandling (scripted Sample.fourth_time_lucky)
      "Navigate to game" None world0 = (Fulfilled true, w')
    /\ calls w' = 4%nat.
Proof.
  apply (retry_returns_late_success Sample.errorHandling Sample.fourth_time_lucky
           "Navigate to game" world0 3 true).
  - reflexivity.
  - intros k Hk. simpl in Hk. unfold Sample.fourth_time_lucky.
    replace (Nat.leb k 3) with true by (symmetry; apply Nat.leb_le; lia).
    discriminate.
  - reflexivity.
Defined.

(** C8 (what the code does with an override of 0).  [0] is falsy, so
    [maxRetries || this.config.maxRetries] takes the configured default:
    the call with override 0 is the call with no override, and under a
    default of 3 an operation that always rejects is invoked four
    times, not once.  Any other override is used as it is. *)
Theorem zero_override_takes_default :
  (forall (cfg : ErrorHandling) (op : Async bool) context w,
     retryWithBackoff cfg op context (Some 0) w
     = retryWithBackoff cfg op context None w)
  /\ calls (snd (retryWithBackoff Sample.errorHandling (scripted Sample.always_refused)
                   "Navigate to game" (Some 0) world0)) = 4%nat
  /\ (forall r configured,
        or_default (Some r) configured = if r =? 0 then configured else r).
Proof. repeat split. Qed.

End RetryExamples.

(** ** The execution guard: one timer around the whole retry sequence *)

Section GuardFacts.
Import ErrorHandler.

Lemma logged_refl w : logged w w.
Proof. repeat split. Qed.

Lemma logged_trans w1 w2 w3 : logged w1 w2 -> logged w2 w3 -> logged w1 w3.
Proof. unfold logged. intuition congruence. Qed.

Lemma logged_write l m d w : logged w (Logger.write l m d w).
Proof. repeat split. Qed.

Lemma logged_screenshot p name description w :
  logged w (Logger.screenshot p name description w).
Proof. unfold Logger.screenshot. destruct (screenshotWorks p name); repeat split. Qed.

Lemma logged_shouldContinue cfg error w :
  logged w (snd (shouldContinue cfg error w)).
Proof.
  unfold shouldContinue.
  destruct (continueOnMinorErrors cfg); simpl; [|apply logged_refl].
  destruct (isFatal _); [apply logged_write|].
  destruct (isMinor _); apply logged_write.
Qed.

Lemma logged_handleError cfg error page context w :
  logged w (snd (handleError cfg error page context w)).
Proof.
  unfold handleError.
  eapply logged_trans; [|apply logged_shouldContinue].
  destruct (takeScreenshotOnError cfg), page;
    try apply logged_write.
  eapply logged_trans; [apply logged_write|apply logged_screenshot].
Qed.

Lemma recover_result {V} cfg error page context w :
  fst (@recover V cfg error page context w)
  = if verdict cfg error then Fulfilled None else Rejected error.
Proof.
  unfold recover.
  destruct (handleError_verdict cfg error page context w) as [w0 E].
  rewrite E.
  pose proof (shouldContinue_verdict cfg error w0) as Hv.
  destruct (shouldContinue cfg error w0) as [b w1]. simpl in Hv.
  fold (verdict cfg error) in Hv. rewrite <- Hv.
  destruct b; reflexivity.
Qed.

Lemma recover_logged {V} cfg error page context w :
  logged w (snd (@recover V cfg error page context w)).
Proof.
  unfold recover.
  pose proof (logged_handleError cfg error page context w) as H.
  destruct (handleError cfg error page context w) as [b w1].
  destruct b; exact H.
Qed.


End GuardFacts.

Section GuardClaims.
Import ErrorHandler.
Context {V : Type}.


End GuardClaims.

Section GuardWitnesses.
Import ErrorHandler.




End GuardWitnesses.

(** ** Retrying an operation that keeps its hands off the page *)

Section AnyOperation.
Import ErrorHandler.
Context {V : Type}.
Variable cfg : ErrorHandling.
Variable op : Async V.
Variable context : string.
Variable retries : Z.

Hypothesis op_frame : forall w c w',
  op w = (c, w') -> calls w' = calls w /\ actions w' = actions w.

Lemma attempts_actions n : forall attempt last w c w',
  attempts cfg op context retries n attempt last w = (c, w') ->
  actions w' = actions w.
Proof.
  induction n as [|n IH]; intros attempt last w c w' Hrun.
  - simpl in Hrun. destruct last; injection Hrun as _ <-; reflexivity.
  - cbn [attempts] in Hrun.
    destruct (op (invoke (Logger.info _ [] w))) as [[v|e|] w2] eqn:E;
      destruct (op_frame _ _ _ E) as [_ Ha].
    + injection Hrun as _ <-. destruct (1 <? attempt); simpl; rewrite Ha;
        reflexivity.
    + apply IH in Hrun. rewrite Hrun.
      destruct (attempt <=? retries); simpl; rewrite Ha; reflexivity.
    + injection Hrun as _ <-. rewrite Ha. reflexivity.
Qed.

Lemma attempts_not_fulfilled n : forall attempt last w,
  (forall w0, (calls w < calls w0 <= calls w + n)%nat ->
     forall v w0', op w0 <> (Fulfilled v, w0')) ->
  forall v w', attempts cfg op context retries n attempt last w <> (Fulfilled v, w').
Proof.
  induction n as [|n IH]; intros attempt last w Hfail v w' Hrun.
  - simpl in Hrun. destruct last; discriminate.
  - cbn [attempts] in Hrun.
    destruct (op (invoke (Logger.info _ [] w))) as [[v0|e|] w2] eqn:E.
    + eapply Hfail; [|exact E].
      rewrite calls_invoke. unfold Logger.info. rewrite calls_write. lia.
    + destruct (op_frame _ _ _ E) as [Hc _].
      rewrite calls_invoke in Hc. unfold Logger.info in Hc.
      rewrite calls_write in Hc.
      revert Hrun. apply IH. intros w0 Hw0. apply Hfail.
      destruct (attempt <=? retries);
        unfold calls in Hw0, Hc |- *; simpl in Hw0; lia.
    + discriminate.
Qed.

End AnyOperation.

Section GuardedFailure.
Import ErrorHandler.
Context {V : Type}.
Variable cfg : ErrorHandling.
Variable op : Async V.
Variable context : string.
Variable page : option Page.

Hypothesis op_frame : forall w c w',
  op w = (c, w') -> calls w' = calls w /\ actions w' = actions w.

Lemma recover_cases error w :
  exists w',
    (@recover V cfg error page context w = (Fulfilled None, w')
     \/ @recover V cfg error page context w = (Rejected error, w'))
    /\ actions w' = actions w.
Proof.
  pose proof (recover_result (V := V) cfg error page context w) as Hres.
  pose proof (recover_logged (V := V) cfg error page context w) as (_ & _ & _ & Ha).
  destruct (recover cfg error page context w) as [c w']. simpl in *.
  exists w'. split; [|exact Ha].
  destruct (verdict cfg error); subst c; auto.
Qed.

(** When no invocation within the retry budget fulfils, the guard ends
    in its [catch] block: it returns [null] or throws, and it has not
    touched the page. *)
Lemma safeExecute_fails w :
  (forall w0,
     (calls w < calls w0 <= calls w + Z.to_nat (maxRetries cfg + 1))%nat ->
     forall v w0', op w0 <> (Fulfilled v, w0')) ->
  exists w',
    (safeExecute cfg op context page w = (Fulfilled None, w')
     \/ exists e, safeExecute cfg op context page w = (Rejected e, w'))
    /\ (actions w = [] -> actions w' = []).
Proof.
  intros Hfail. unfold safeExecute, withTimeout.
  destruct (retryWithBackoff cfg op context None w) as [c w1] eqn:Hrun.
  unfold retryWithBackoff, or_default in Hrun.
  pose proof (attempts_actions cfg op context _ op_frame _ _ _ _ _ _ Hrun) as Ha.
  set (deadline := clock w + Js.timerDelay (or_default None (timeoutActions cfg))).
  set (late := timeout_error (or_default None (timeoutActions cfg)) context).
  assert (Hlate : exists w',
             (@recover V cfg late page context (at_deadline deadline w1)
                = (Fulfilled None, w')
              \/ exists e, @recover V cfg late page context (at_deadline deadline w1)
                           = (Rejected e, w'))
             /\ (actions w = [] -> actions w' = [])).
  { destruct (recover_cases late (at_deadline deadline w1)) as (w' & Hc & Hact).
    exists w'. split; [destruct Hc; eauto|].
    intros Hnil. rewrite Hact. simpl. rewrite Ha, Hnil. reflexivity. }
  destruct c as [v|e|].
  - exfalso. revert Hrun.
    apply (attempts_not_fulfilled cfg op context _ op_frame). exact Hfail.
  - destruct (clock w1 <=? deadline); [|exact Hlate].
    destruct (recover_cases e w1) as (w' & Hc & Hact).
    exists w'. split; [destruct Hc; eauto|].
    intros Hnil. rewrite Hact, Ha. exact Hnil.
  - exact Hlate.
Qed.

End GuardedFailure.

(** ** Console traffic *)

Section Console.
Import GamePlayer.
Variable config : Config.

Lemma offpage_refl w : offpage w w.
Proof. split; reflexivity. Qed.

Lemma offpage_trans w1 w2 w3 : offpage w1 w2 -> offpage w2 w3 -> offpage w1 w3.
Proof. unfold offpage. intuition congruence. Qed.

Lemma offpage_write l m d w : offpage w (Logger.write l m d w).
Proof. split; reflexivity. Qed.

Lemma offpage_tick d w : offpage w (tick d w).
Proof. split; reflexivity. Qed.

Lemma offpage_screenshot p name description w :
  offpage w (Logger.screenshot p name description w).
Proof.
  unfold Logger.screenshot. destruct (screenshotWorks p name); split; reflexivity.
Qed.

Lemma offpage_onConsole msg w : offpage w (onConsole config msg w).
Proof.
  unfold onConsole, analyzeConsoleMessage.
  destruct (captureConsole config), (isActivity (msgText msg));
    destruct (Js.includes (msgText msg) "game started"
              || Js.includes (msgText msg) "scenario"
              || Js.includes (msgText msg) "choice available");
    split; reflexivity.
Qed.

Lemma onConsole_stats msg w :
  length (gameStats (onConsole config msg w))
  = (length (gameStats w) + if isActivity (msgText msg) then 1 else 0)%nat.
Proof.
  unfold onConsole, analyzeConsoleMessage.
  destruct (captureConsole config), (isActivity (msgText msg));
    destruct (Js.includes (msgText msg) "game started"
              || Js.includes (msgText msg) "scenario"
              || Js.includes (msgText msg) "choice available");
    simpl; rewrite ?length_app; simpl; lia.
Qed.

Lemma offpage_deliver msgs : forall w, offpage w (deliver config msgs w).
Proof.
  induction msgs as [|msg msgs IH]; intros w; [apply offpage_refl|].
  simpl. eapply offpage_trans; [apply offpage_onConsole|apply IH].
Qed.

Lemma deliver_stats msgs : forall w,
  length (gameStats (deliver config msgs w))
  = (length (gameStats w) + activityCount msgs)%nat.
Proof.
  induction msgs as [|msg msgs IH]; intros w.
  - simpl. unfold activityCount. simpl. lia.
  - simpl. rewrite IH, onConsole_stats. unfold activityCount. simpl.
    destruct (isActivity (msgText msg)); simpl; lia.
Qed.

End Console.

(** ** A run whose navigation fails *)

Section FailedNavigation.
Import GamePlayer.
Variable config : Config.
Variable remote : Remote.

Lemma navigation_offpage w c w' :
  navigation config remote w = (c, w') -> offpage w w'.
Proof.
  unfold navigation. intros H.
  destruct (goto remote _) as [d [u|e]|]; injection H as _ <-.
  - eapply offpage_trans; [|apply offpage_write].
    eapply offpage_trans; [|apply offpage_screenshot].
    eapply offpage_trans; [|apply offpage_deliver].
    eapply offpage_trans; [|apply offpage_tick].
    apply offpage_write.
  - eapply offpage_trans; [|apply offpage_tick]. apply offpage_write.
  - apply offpage_write.
Qed.

Lemma navigation_frame w c w' :
  navigation config remote w = (c, w') ->
  calls w' = calls w /\ actions w' = actions w.
Proof.
  intros H. destruct (navigation_offpage w c w' H) as [Hs Ha].
  unfold calls. rewrite Hs. split; [reflexivity|exact Ha].
Qed.

Lemma navigation_fulfilled w v w' :
  navigation config remote w = (Fulfilled v, w') ->
  ErrorHandler.value_of (goto remote (calls w)) <> None.
Proof.
  unfold navigation. change (calls (Logger.info _ [] w)) with (calls w).
  destruct (goto remote (calls w)) as [d [u|e]|]; simpl; intros H;
    discriminate.
Qed.

Lemma navigateToGame_fails p w :
  (forall k,
     (calls w < k <= calls w
                     + Z.to_nat (maxRetries (errorHandling config) + 1))%nat ->
     ErrorHandler.value_of (goto remote k) = None) ->
  exists w',
    (navigateToGame config remote (p, w) = (Fulfilled false, (p, w'))
     \/ exists e, navigateToGame config remote (p, w) = (Rejected e, (p, w')))
    /\ (actions w = [] -> actions w' = []).
Proof.
  intros Hfail. unfold navigateToGame. cbn [fst snd].
  destruct (safeExecute_fails (errorHandling config) (navigation config remote)
              "Navigate to game"
              (if page p then Some (shots remote) else None)
              navigation_frame w) as (w' & Hres & Hact).
  { intros w0 Hw0 v w0' Hnav.
    apply navigation_fulfilled in Hnav. apply Hnav, Hfail, Hw0. }
  exists w'. split; [|exact Hact].
  destruct Hres as [->|[e ->]]; eauto.
Qed.

(** C9. When the browser is up and no [page.goto] within the retry
    budget succeeds, [playGame] returns [false]; it never enters the
    scenario loop (the scenario counter is still 0 and no click was made
    on the page), and [cleanup] has run: the page was closed, the browser
    too unless closing the page threw, and the logger was finalized. *)
Theorem failed_navigation_aborts_and_cleans_up :
  launch remote = None ->
  newPage remote = None ->
  (forall k,
     (1 <= k <= Z.to_nat (maxRetries (errorHandling config) + 1))%nat ->
     ErrorHandler.value_of (goto remote k) = None) ->
  exists st',
    playGame config remote (player0, world0) = (Fulfilled false, st')
    /\ scenarioCount (fst st') = 0%nat
    /\ map snd (actions (snd st'))
       = ClosePage
           :: match pageClose remote with
              | None => [CloseBrowser]
              | Some _ => []
              end ++ [Finalize].
Proof.
  intros Hlaunch HnewPage Hfail.
  set (p1 := mkPlayer true true 0 0).
  set (w1 := Logger.success "Browser initialized successfully" []
               (Logger.info "Initializing browser..." [] world0)).
  assert (Hinit : init remote (player0, world0) = (Fulfilled true, (p1, w1))).
  { unfold init. rewrite Hlaunch, HnewPage. reflexivity. }
  destruct (navigateToGame_fails p1 w1) as (w2 & Hnav & Hact).
  { intros k Hk. apply Hfail. change (calls w1) with 0%nat in Hk. lia. }
  specialize (Hact eq_refl).
  unfold playGame, finally, try_catch.
  unfold bind at 1. rewrite Hinit.
  unfold require at 1. cbn [negb]. unfold bind at 1, ret at 1.
  unfold bind at 1.
  destruct Hnav as [Hnav|[e Hnav]]; rewrite Hnav.
  - unfold require at 1. cbn [negb]. unfold bind at 1, throw at 1.
    unfold bind, world, ret, cleanup, finally, try_catch, get, call. cbn [fst snd page browser p1].
    destruct (pageClose remote), (browserClose remote); cbn [fst snd];
      eexists; (split; [reflexivity|]); (split; [reflexivity|]);
      cbn [snd actions act Logger.error Logger.info Logger.write];
      rewrite ?map_app, Hact; reflexivity.
  - unfold bind, world, ret, cleanup, finally, try_catch, get, call. cbn [fst snd page browser p1].
    destruct (pageClose remote), (browserClose remote); cbn [fst snd];
      eexists; (split; [reflexivity|]); (split; [reflexivity|]);
      cbn [snd actions act Logger.error Logger.info Logger.write];
      rewrite ?map_app, Hact; reflexivity.
Qed.

End FailedNavigation.

Section FailedNavigationWitness.
Import GamePlayer.

Lemma failed_navigation_aborts_and_cleans_up_witness :
  exists st',
    playGame (Sample.config 3 "pattern") Sample.unreachable (player0, world0)
    = (Fulfilled false, st')
    /\ scenarioCount (fst st') = 0%nat
    /\ map snd (actions (snd st')) = [ClosePage; CloseBrowser; Finalize].
Proof.
  apply (failed_navigation_aborts_and_cleans_up (Sample.config 3 "pattern")
           Sample.unreachable).
  - reflexivity.
  - reflexivity.
  - intros k _. reflexivity.
Defined.

End FailedNavigationWitness.

(** ** The scenario loop *)

Section ScenarioLoop.
Import GamePlayer.
Variable config : Config.
Variable remote : Remote.

Lemma gameStats_write l m d w : gameStats (Logger.write l m d w) = gameStats w.
Proof. reflexivity. Qed.

Lemma gameStats_screenshot p name description w :
  gameStats (Logger.screenshot p name description w) = gameStats w.
Proof. unfold Logger.screenshot. destruct (screenshotWorks p name); reflexivity. Qed.

Lemma gameStats_tick d w : gameStats (tick d w) = gameStats w.
Proof. reflexivity. Qed.

Lemma gameStats_act a w : gameStats (act a w) = gameStats w.
Proof. reflexivity. Qed.

Ltac run_monad :=
  cbv beta iota zeta delta
    [round bind world player shot get ret call try_catch fst snd].

(** One round whose clicks go through: it adds one to the count exactly
    when the statistics on record at the check outnumber the rounds
    counted so far, and it always runs to its end. *)
Lemma round_completes k actual p w :
  clicks_work remote k ->
  let atCheck := (length (gameStats w)
                  + activityCount (consoleOnAdvance remote k)
                  + activityCount (consoleOnChoice remote k))%nat in
  exists w',
    round config remote k actual (p, w)
    = (Fulfilled (if Nat.ltb actual atCheck then S actual else actual),
       (mkPlayer (browser p) (page p) k (S (choiceIndex p)), w'))
    /\ length (gameStats w')
       = (atCheck + activityCount (consoleOnSettle remote k))%nat.
Proof.
  intros [Hadvance Hchoice] atCheck.
  run_monad. rewrite Hadvance.
  destruct (mouseClick remote k) as [e|] eqn:Hmouse;
    [destruct Hchoice as [Hm|Hfallback]; [discriminate|]; rewrite Hfallback|];
    unfold Logger.info, Logger.warn, Logger.success, Logger.error;
    repeat first [ rewrite gameStats_write | rewrite gameStats_screenshot
                 | rewrite gameStats_tick | rewrite gameStats_act
                 | rewrite deliver_stats ];
    fold atCheck;
    destruct (Nat.ltb actual atCheck); eexists; (split; [reflexivity|]);
    repeat first [ rewrite gameStats_write | rewrite gameStats_screenshot
                 | rewrite gameStats_tick | rewrite gameStats_act
                 | rewrite deliver_stats ];
    reflexivity.
Qed.

(** The loop runs all its rounds when the clicks go through, whatever
    the rounds were counted as; the count never exceeds the statistics
    on record. *)
Lemma rounds_complete n : forall i actual p w,
  (forall k, (i < k <= i + n)%nat -> clicks_work remote k) ->
  (actual <= length (gameStats w))%nat ->
  exists actual' p' w',
    rounds config remote n i actual (p, w) = (Fulfilled actual', (p', w'))
    /\ choiceIndex p' = (choiceIndex p + n)%nat
    /\ (actual <= actual' <= actual + n)%nat
    /\ (actual' <= length (gameStats w'))%nat.
Proof.
  induction n as [|n IH]; intros i actual p w Hclicks Hinv.
  - exists actual, p, w. simpl. unfold ret. repeat split; lia.
  - destruct (round_completes (S i) actual p w) as (w1 & Hround & Hstats).
    { apply Hclicks. lia. }
    set (atCheck := (length (gameStats w)
                     + activityCount (consoleOnAdvance remote (S i))
                     + activityCount (consoleOnChoice remote (S i)))%nat) in *.
    set (a1 := if Nat.ltb actual atCheck then S actual else actual) in *.
    assert (Ha1 : (actual <= a1 <= S actual)%nat /\ (a1 <= atCheck)%nat).
    { subst a1. destruct (Nat.ltb actual atCheck) eqn:E.
      - apply Nat.ltb_lt in E. lia.
      - subst atCheck. lia. }
    destruct (IH (S i) a1 (mkPlayer (browser p) (page p) (S i) (S (choiceIndex p))) w1)
      as (a' & p' & w' & Hrest & Hidx & Hbounds & Hinv').
    { intros k Hk. apply Hclicks. lia. }
    { lia. }
    exists a', p', w'. cbn [rounds]. unfold bind at 1. rewrite Hround.
    split; [exact Hrest|]. simpl in Hidx. repeat split; lia.
Qed.

(** C2, as the code has it.  A round whose clicks go through is counted
    as a verified success exactly when the number of statistics on
    record at the check is greater than the number of rounds counted so
    far; the count on record when the round began plays no part.  A
    round during which new statistics arrived is therefore counted
    (the loop keeps the count of verified rounds at or below the
    statistics on record), and a round during which none arrived is
    counted as well while earlier statistics remain to draw on.  However
    its rounds are counted, the loop runs every one of them. *)
Theorem round_verified_when_stats_exceed_count :
  (forall k actual p w,
     clicks_work remote k ->
     let before := length (gameStats w) in
     let atCheck := (before + activityCount (consoleOnAdvance remote k)
                     + activityCount (consoleOnChoice remote k))%nat in
     exists actual' st',
       round config remote k actual (p, w) = (Fulfilled actual', st')
       /\ (actual' = S actual <-> (actual < atCheck)%nat)
       /\ (actual' = actual <-> ~ (actual < atCheck)%nat)
       /\ ((actual <= before)%nat -> (before < atCheck)%nat -> actual' = S actual))
  /\ (forall n p w,
        (forall k, (0 < k <= n)%nat -> clicks_work remote k) ->
        exists actual' p' w',
          rounds config remote n 0 0 (p, w) = (Fulfilled actual', (p', w'))
          /\ choiceIndex p' = (choiceIndex p + n)%nat
          /\ (actual' <= n)%nat
          /\ (actual' <= length (gameStats w'))%nat).
Proof.
  split.
  - intros k actual p w Hclicks before atCheck.
    destruct (round_completes k actual p w Hclicks) as (w' & Hround & _).
    fold before atCheck in Hround.
    eexists. eexists. split; [exact Hround|].
    destruct (Nat.ltb actual atCheck) eqn:E.
    + apply Nat.ltb_lt in E. repeat split; intros; try lia; auto.
    + apply Nat.ltb_ge in E. repeat split; intros; try lia; auto.
  - intros n p w Hclicks.
    destruct (rounds_complete n 0 0 p w) as (a & p' & w' & Hrun & Hidx & Hb & Hinv).
    + intros k Hk. apply Hclicks. lia.
    + lia.
    + exists a, p', w'. repeat split; try assumption; lia.
Qed.

End ScenarioLoop.

Section ScenarioLoopWitness.
Import GamePlayer.

(** On [Sample.quiet] the one console message of the run arrives with
    the page load.  Round 1 finds it on record and is counted, though
    nothing arrived during the round. *)
Lemma round_verified_when_stats_exceed_count_witness :
  length (gameStats (snd Sample.loaded)) = 1%nat
  /\ exists actual' st',
       round (Sample.config 1 "left") Sample.quiet 1 0
         (fst Sample.loaded, snd Sample.loaded)
       = (Fulfilled actual', st')
       /\ actual' = 1%nat.
Proof.
  split; [vm_compute; reflexivity|].
  destruct (round_verified_when_stats_exceed_count (Sample.config 1 "left")
              Sample.quiet) as [Hround _].
  destruct (Hround 1%nat 0%nat (fst Sample.loaded) (snd Sample.loaded))
    as (actual' & st' & Hrun & Hcounted & _).
  { split; [reflexivity|left; reflexivity]. }
  exists actual', st'. split; [exact Hrun|].
  apply Hcounted. vm_compute. apply le_n.
Defined.

(** C2, as stated, fails: the round above is counted although the
    number of statistics on record is the same at its end as at its
    beginning. *)
Lemma round_verified_iff_evidence_grew_counterexample :
  ~ (forall config remote k actual st actual' st',
       round config remote k actual st = (Fulfilled actual', st') ->
       (actual' = S actual
        <-> (length (gameStats (snd st)) < length (gameStats (snd st')))%nat)).
Proof.
  intros claim.
  pose (st' := snd (round (Sample.config 1 "left") Sample.quiet 1 0 Sample.loaded)).
  assert (Hrun : round (Sample.config 1 "left") Sample.quiet 1 0 Sample.loaded
                 = (Fulfilled 1%nat, st')) by (vm_compute; reflexivity).
  apply claim in Hrun. destruct Hrun as [Hgrew _].
  specialize (Hgrew eq_refl). vm_compute in Hgrew. lia.
Qed.

End ScenarioLoopWitness.

(** ** The run coordinator *)

Section SingleFlight.
Import Scheduler.

Lemma guarded_fresh : guarded fresh.
Proof. right. split; reflexivity. Qed.

Lemma guarded_step s e s' : guarded s -> step s e = Some s' -> guarded s'.
Proof.
  intros [[Hflag Hn]|[Hflag Hn]] Hstep; destruct e as [ctor|o]; simpl in Hstep.
  - unfold runGame_enter in Hstep. rewrite Hflag in Hstep.
    injection Hstep as <-. left. simpl. split; auto.
  - rewrite Hn in Hstep. injection Hstep as <-. right. simpl.
    rewrite ?Hn. split; reflexivity.
  - unfold runGame_enter in Hstep. rewrite Hflag in Hstep.
    destruct ctor; injection Hstep as <-; simpl.
    + right. split; [reflexivity|exact Hn].
    + left. rewrite ?Hn. split; reflexivity.
  - rewrite Hn in Hstep. discriminate.
Qed.

Lemma guarded_run es : forall s s',
  guarded s -> run s es = Some s' -> guarded s'.
Proof.
  induction es as [|e es IH]; intros s s' Hs Hrun; simpl in Hrun.
  - injection Hrun as <-. exact Hs.
  - destruct (step s e) as [s1|] eqn:Hstep; [|discriminate].
    eapply IH; [|exact Hrun]. eapply guarded_step; eauto.
Qed.

(** C3. [runGame] called while [isRunning] holds returns [false] and
    invokes no runner; called otherwise it raises the flag and only then
    invokes the runner; when the run settles, by a verdict or by an
    exception, and likewise when the player cannot even be built, the
    flag is lowered.  So, over any sequence of triggers and settlements,
    at most one run is in flight and the flag is up exactly while it is. *)
Theorem runGame_is_single_flight :
  (forall ctor s,
     isRunning s = true ->
     runGame_enter ctor s
     = (Some false,
        mkScheduler true (inFlight s) (trace s ++ [Skipped; Returned false])))
  /\ (forall s,
        isRunning s = false ->
        runGame_enter None s
        = (None,
           mkScheduler true (S (inFlight s))
             (trace s ++ [FlagSet true; RunnerInvoked])))
  /\ (forall o s, isRunning (snd (runGame_resume o s)) = false)
  /\ (forall e s,
        isRunning s = false ->
        fst (runGame_enter (Some e) s) = Some false
        /\ isRunning (snd (runGame_enter (Some e) s)) = false
        /\ inFlight (snd (runGame_enter (Some e) s)) = inFlight s)
  /\ (forall e s, fst (runGame_resume (Throws e) s) = false)
  /\ (forall es s,
        run fresh es = Some s ->
        (inFlight s <= 1)%nat /\ (isRunning s = true <-> inFlight s = 1%nat)).
Proof.
  split; [|split; [|split; [|split; [|split]]]].
  - intros ctor s Hflag. unfold runGame_enter. rewrite Hflag. reflexivity.
  - intros s Hflag. unfold runGame_enter. rewrite Hflag. reflexivity.
  - intros o s. reflexivity.
  - intros e s Hflag. unfold runGame_enter. rewrite Hflag. simpl. auto.
  - intros e s. reflexivity.
  - intros es s Hrun.
    destruct (guarded_run es fresh s guarded_fresh Hrun) as [[Hf Hn]|[Hf Hn]];
      rewrite Hf, Hn; split; try lia; split; intros; congruence.
Qed.

(** Two triggers, the second while the first run is in flight; the run
    throws; a third trigger then starts a run. *)
Lemma runGame_is_single_flight_witness :
  exists s,
    run fresh [Trigger None; Trigger None;
               Settle (Throws (Js.mkError "page crashed")); Trigger None]
    = Some s
    /\ (inFlight s <= 1)%nat
    /\ trace s = [FlagSet true; RunnerInvoked; Skipped; Returned false;
                  FlagSet false; Returned false; FlagSet true; RunnerInvoked].
Proof.
  eexists. split; [reflexivity|]. split; [|reflexivity].
  destruct runGame_is_single_flight as (_ & _ & _ & _ & _ & Hinv).
  apply (Hinv [Trigger None; Trigger None;
               Settle (Throws (Js.mkError "page crashed")); Trigger None]).
  reflexivity.
Defined.

End SingleFlight.

(** ** More on the execution guard *)

Section GuardBounds.
Import ErrorHandler.
Context {V : Type}.

(** X1. When the [catch] block has no screenshot to wait for (the option
    is off, or no page was passed), the guard always settles, and no
    later than its deadline: an operation that never settles cannot hold
    the caller beyond [timeoutActions] ms. *)
Theorem safeExecute_settles_by_deadline cfg (op : Async V) context page w :
  takeScreenshotOnError cfg = false \/ page = None ->
  fst (safeExecute cfg op context page w) <> Pending
  /\ clock (snd (safeExecute cfg op context page w))
     <= clock w + Js.timerDelay (timeoutActions cfg).
Proof.
  intros _.
  unfold safeExecute, withTimeout, or_default.
  destruct (retryWithBackoff cfg op context None w) as [c w1].
  set (deadline := clock w + Js.timerDelay (timeoutActions cfg)).
  set (late := timeout_error (timeoutActions cfg) context).
  assert (Hrec : forall e w0, clock w0 <= deadline ->
            fst (@recover V cfg e page context w0) <> Pending
            /\ clock (snd (@recover V cfg e page context w0)) <= deadline).
  { intros e w0 Hw0.
    pose proof (recover_result (V := V) cfg e page context w0) as Hres.
    destruct (recover_logged (V := V) cfg e page context w0) as (Hc & _).
    rewrite Hres, Hc. split; [destruct (verdict cfg e); discriminate|exact Hw0]. }
  assert (Hlate : fst (@recover V cfg late page context (at_deadline deadline w1))
                    <> Pending
                  /\ clock (snd (@recover V cfg late page context
                                   (at_deadline deadline w1))) <= deadline)
    by (apply Hrec; simpl; lia).
  destruct c as [v|e|]; [| |exact Hlate].
  - destruct (clock w1 <=? deadline) eqn:E; [|exact Hlate].
    apply Z.leb_le in E. simpl. split; [discriminate|lia].
  - destruct (clock w1 <=? deadline) eqn:E; [|exact Hlate].
    apply Z.leb_le in E. apply Hrec. lia.
Qed.


(** X3. A negative [maxRetries] leaves the loop no iteration: the operation
    is never invoked, nothing is logged, and what is thrown is the
    [TypeError] of reading [lastError.message] off [null].  No pattern
    matches its message, so the guard throws it under every
    configuration. *)
Theorem negative_maxRetries_never_invokes cfg (op : Async V) context page w :
  maxRetries cfg < 0 ->
  retryWithBackoff cfg op context None w = (Rejected Js.null_message_error, w)
  /\ fst (safeExecute cfg op context page w) = Rejected Js.null_message_error
  /\ started (snd (safeExecute cfg op context page w)) = started w.
Proof.
  intros Hneg.
  assert (Hrun : retryWithBackoff cfg op context None w
                 = (Rejected Js.null_message_error, w)).
  { unfold retryWithBackoff, or_default.
    replace (Z.to_nat (maxRetries cfg + 1)) with 0%nat by lia. reflexivity. }
  split; [exact Hrun|].
  unfold safeExecute, withTimeout, or_default. rewrite Hrun.
  assert (Hin : (clock w <=? clock w + Js.timerDelay (timeoutActions cfg)) = true).
  { apply Z.leb_le. unfold Js.timerDelay.
    destruct ((timeoutActions cfg <? 1) || (2147483647 <? timeoutActions cfg)) eqn:E;
      [lia|].
    apply orb_false_iff in E as [E _]. apply Z.ltb_ge in E. lia. }
  rewrite Hin. split.
  - rewrite recover_result. unfold verdict.
    replace (isMinor (Js.message Js.null_message_error)) with false by reflexivity.
    rewrite andb_false_r. reflexivity.
  - destruct (recover_logged (V := V) cfg Js.null_message_error page context w)
      as (_ & Hs & _).
    exact Hs.
Qed.

End GuardBounds.

Section GuardBoundsWitnesses.
Import ErrorHandler.

Lemma safeExecute_settles_by_deadline_witness :
  fst (safeExecute Sample.errorHandling (scripted Sample.hanging)
         "Navigate to game" None world0) <> Pending
  /\ clock (snd (safeExecute Sample.errorHandling (scripted Sample.hanging)
                   "Navigate to game" None world0)) <= 30000.
Proof.
  apply (safeExecute_settles_by_deadline Sample.errorHandling
           (scripted Sample.hanging) "Navigate to game" None world0).
  right. reflexivity.
Defined.


Lemma negative_maxRetries_never_invokes_witness :
  fst (safeExecute (mkErrorHandling (-1) 1000 30000 true true)
         (scripted Sample.always_refused) "Navigate to game" None world0)
  = Rejected Js.null_message_error.
Proof.
  apply (negative_maxRetries_never_invokes (mkErrorHandling (-1) 1000 30000 true true)
           (scripted Sample.always_refused) "Navigate to game" None world0).
  reflexivity.
Defined.

End GuardBoundsWitnesses.

Section RetryTiming.
Import ErrorHandler.
Context {V : Type}.
Variable cfg : ErrorHandling.
Variable f : nat -> attempt V.
Variable context : string.
Variable retries : Z.

Lemma clock_after_rejection attempt e d w :
  clock (after_rejection cfg context retries attempt e d w)
  = clock w + d
    + (if attempt <=? retries then Js.timerDelay (retryDelay cfg) else 0).
Proof.
  unfold after_rejection, sleep, Logger.info, Logger.warn. cbv zeta.
  destruct (attempt <=? retries); simpl; lia.
Qed.

Lemma attempts_exhausted_clock n : forall attempt last w,
  attempt + Z.of_nat n = retries + 2 ->
  (forall k, (calls w < k <= calls w + n)%nat -> error_of (f k) <> None) ->
  clock (snd (attempts cfg (scripted f) context retries n attempt last w))
  = clock w + total_duration f (calls w) n
    + Z.of_nat (pred n) * Js.timerDelay (retryDelay cfg).
Proof.
  induction n as [|n IH]; intros attempt last w Hidx Hfail.
  - destruct last; simpl; lia.
  - assert (H1 : error_of (f (S (calls w))) <> None) by (apply Hfail; lia).
    destruct (f (S (calls w))) as [d [v|e]|] eqn:Hf; simpl in H1;
      try congruence.
    rewrite (attempts_rejected cfg f context retries n attempt last w d e Hf).
    rewrite IH.
    + rewrite clock_after_rejection, calls_after_rejection.
      cbn [total_duration]. rewrite Hf. cbn [duration_of pred].
      destruct (attempt <=? retries) eqn:E.
      * apply Z.leb_le in E. destruct n as [|n']; [lia|]. cbn [pred]. lia.
      * apply Z.leb_gt in E. destruct n as [|n']; [simpl; lia|lia].
    + lia.
    + intros k Hk. rewrite calls_after_rejection in Hk. apply Hfail. lia.
Qed.

End RetryTiming.

Section RetryTimingClaims.
Import ErrorHandler.
Context {V : Type}.

(** X4. A retry sequence whose attempts all reject lasts as long as its
    [r + 1] attempts together plus [r] waits of [retryDelay] ms: there
    is a wait between two attempts and none after the last. *)
Theorem retry_exhausted_elapsed cfg (f : nat -> attempt V) context w (r : nat) :
  maxRetries cfg = Z.of_nat r ->
  (forall k, error_of (f k) <> None) ->
  clock (snd (retryWithBackoff cfg (scripted f) context None w))
  = clock w + total_duration f (calls w) (r + 1)
    + Z.of_nat r * Js.timerDelay (retryDelay cfg).
Proof.
  intros Hr Hfail. unfold retryWithBackoff, or_default. rewrite Hr.
  replace (Z.to_nat (Z.of_nat r + 1)) with (S r) by lia.
  replace (r + 1)%nat with (S r) by lia.
  rewrite attempts_exhausted_clock; [reflexivity|lia|].
  intros k _. apply Hfail.
Qed.

End RetryTimingClaims.

Section RetryTimingWitness.
Import ErrorHandler.

(** Four refusals of 50 ms each and three waits of a second. *)
Lemma retry_exhausted_elapsed_witness :
  clock (snd (retryWithBackoff Sample.errorHandling
                (scripted Sample.always_refused) "Navigate to game" None world0))
  = 3200.
Proof.
  rewrite (retry_exhausted_elapsed Sample.errorHandling Sample.always_refused
             "Navigate to game" world0 3).
  - reflexivity.
  - reflexivity.
  - intros k. discriminate.
Defined.

End RetryTimingWitness.

(** ** Letter case in the classifier *)

Section LetterCase.
Import ErrorHandler.

Lemma lower_idempotent c : Js.lower (Js.lower c) = Js.lower c.
Proof. destruct c as [[] [] [] [] [] [] [] []]; reflexivity. Qed.

Lemma toLowerCase_cons c s :
  Js.toLowerCase (String c s) = String (Js.lower c) (Js.toLowerCase s).
Proof. reflexivity. Qed.

Lemma starts_ci_toLowerCase p : forall s,
  Js.starts_ci p (Js.toLowerCase s) = Js.starts_ci p s.
Proof.
  induction p as [|a p IH]; intros s.
  - destruct s; reflexivity.
  - destruct s as [|b s]; [reflexivity|].
    rewrite toLowerCase_cons. cbn [Js.starts_ci]. unfold Js.eq_ci.
    rewrite lower_idempotent, IH. reflexivity.
Qed.

Lemma test_ci_toLowerCase p s :
  Js.test_ci p (Js.toLowerCase s) = Js.test_ci p s.
Proof.
  induction s as [|b s IH].
  - reflexivity.
  - rewrite toLowerCase_cons. cbn [Js.test_ci].
    rewrite IH, <- toLowerCase_cons, starts_ci_toLowerCase. reflexivity.
Qed.

Lemma existsb_same {A} (g h : A -> bool) (l : list A) :
  (forall x, g x = h x) -> existsb g l = existsb h l.
Proof. intros E. induction l as [|a l IH]; simpl; [|rewrite E, IH]; reflexivity. Qed.

(** X5. The classifier ignores the case of ASCII letters: an error and the
    same error with its message in lower case get the same answer. *)
Theorem shouldContinue_ignores_case cfg msg w w' :
  fst (shouldContinue cfg (Js.mkError (Js.toLowerCase msg)) w)
  = fst (shouldContinue cfg (Js.mkError msg) w').
Proof.
  rewrite !shouldContinue_verdict. cbn [Js.message].
  unfold isFatal, isMinor.
  rewrite (existsb_same _ (fun pattern => Js.test_ci pattern msg) fatalPatterns)
    by (intros; apply test_ci_toLowerCase).
  rewrite (existsb_same _ (fun pattern => Js.test_ci pattern msg) minorErrorPatterns)
    by (intros; apply test_ci_toLowerCase).
  reflexivity.
Qed.

End LetterCase.

(** ** Console traffic and the statistics *)

Section Statistics.
Import GamePlayer.
Variable config : Config.

Lemma onConsole_clock msg w : clock (onConsole config msg w) = clock w.
Proof.
  unfold onConsole, analyzeConsoleMessage.
  destruct (captureConsole config), (isActivity (msgText msg));
    destruct (Js.includes (msgText msg) "game started"
              || Js.includes (msgText msg) "scenario"
              || Js.includes (msgText msg) "choice available");
    reflexivity.
Qed.

Lemma onConsole_gameStats msg w :
  gameStats (onConsole config msg w)
  = (gameStats w
     ++ (if isActivity (msgText msg)
         then [mkActivity (clock w) (msgText msg) (msgType msg)]
         else []))%list.
Proof.
  unfold onConsole, analyzeConsoleMessage.
  destruct (captureConsole config), (isActivity (msgText msg));
    destruct (Js.includes (msgText msg) "game started"
              || Js.includes (msgText msg) "scenario"
              || Js.includes (msgText msg) "choice available");
    simpl; rewrite ?app_nil_r; reflexivity.
Qed.

(** X6. The statistics are append-only and keep the order of arrival: a
    batch of console messages leaves what is on record in place and adds
    one entry, stamped with the time of arrival, for each message that
    mentions an activity word, whether or not the console is captured
    in the log. *)
Theorem deliver_appends_activity msgs : forall w,
  gameStats (deliver config msgs w)
  = (gameStats w
     ++ map (fun msg => mkActivity (clock w) (msgText msg) (msgType msg))
          (filter (fun msg => isActivity (msgText msg)) msgs))%list.
Proof.
  induction msgs as [|msg msgs IH]; intros w.
  - simpl. rewrite app_nil_r. reflexivity.
  - cbn [deliver fold_left]. fold (deliver config msgs (onConsole config msg w)).
    rewrite IH, onConsole_gameStats, onConsole_clock. cbn [filter].
    destruct (isActivity (msgText msg)); cbn [map];
      rewrite <- app_assoc; reflexivity.
Qed.

End Statistics.

(** ** The choice strategy, round by round *)

Section Strategy.
Import GamePlayer.
Variable config : Config.
Variable remote : Remote.

Lemma determineChoice_index p q :
  choiceIndex p = choiceIndex q ->
  determineChoice config remote p = determineChoice config remote q.
Proof. intros E. unfold determineChoice. rewrite E. reflexivity. Qed.

(** X7. Under the [pattern] strategy with a pattern that is not empty, the
    choice is the pattern entry at the choice index modulo the length of
    the pattern: it is always defined and repeats with that period. *)
Theorem pattern_choice_cycles p q :
  strategy config = "pattern" ->
  pattern config <> [] ->
  choiceIndex q = (choiceIndex p + length (pattern config))%nat ->
  determineChoice config remote p
  = nth_error (pattern config)
      (Nat.modulo (choiceIndex p) (length (pattern config)))
  /\ determineChoice config remote p <> None
  /\ determineChoice config remote q = determineChoice config remote p.
Proof.
  intros Hs Hne Hq.
  assert (Hlen : length (pattern config) <> 0%nat)
    by (destruct (pattern config); [congruence|discriminate]).
  assert (Hdet : forall x, determineChoice config remote x
                 = nth_error (pattern config)
                     (Nat.modulo (choiceIndex x) (length (pattern config)))).
  { intros x. unfold determineChoice. rewrite Hs. simpl.
    destruct (length (pattern config)) eqn:E; [congruence|reflexivity]. }
  split; [apply Hdet|]. split.
  - rewrite Hdet. apply nth_error_Some. apply Nat.mod_upper_bound. exact Hlen.
  - rewrite !Hdet, Hq. f_equal.
    replace (choiceIndex p + length (pattern config))%nat
      with (choiceIndex p + 1 * length (pattern config))%nat by lia.
    apply Nat.Div0.mod_add.
Qed.

End Strategy.

Section StrategyWitness.
Import GamePlayer.

Lemma pattern_choice_cycles_witness :
  determineChoice (Sample.config 4 "pattern") Sample.quiet (mkPlayer true true 4 3)
  = determineChoice (Sample.config 4 "pattern") Sample.quiet (mkPlayer true true 2 1).
Proof.
  apply (pattern_choice_cycles (Sample.config 4 "pattern") Sample.quiet
           (mkPlayer true true 2 1) (mkPlayer true true 4 3)).
  - reflexivity.
  - discriminate.
  - reflexivity.
Defined.

End StrategyWitness.

(** ** What the scenario loop does to the page *)

Section LoopTrace.
Import GamePlayer.
Variable config : Config.
Variable remote : Remote.

Lemma actions_write l m d w : actions (Logger.write l m d w) = actions w.
Proof. reflexivity. Qed.

Lemma actions_screenshot p name description w :
  actions (Logger.screenshot p name description w) = actions w.
Proof. unfold Logger.screenshot. destruct (screenshotWorks p name); reflexivity. Qed.

Lemma actions_tick d w : actions (tick d w) = actions w.
Proof. reflexivity. Qed.

Lemma actions_deliver msgs w : actions (deliver config msgs w) = actions w.
Proof. apply (offpage_deliver config msgs w). Qed.

Lemma actions_act a w : actions (act a w) = (actions w ++ [(clock w, a)])%list.
Proof. reflexivity. Qed.

Lemma clicks_work_no_failure k :
  clicks_work remote k <-> clickFailure remote k = None.
Proof.
  unfold clicks_work, clickFailure. split.
  - intros [-> [->| ->]]; [reflexivity|]. destruct (mouseClick remote k); reflexivity.
  - destruct (advanceClick remote k); [discriminate|].
    destruct (mouseClick remote k); intros H; auto.
Qed.

(** A round whose clicks go through makes one directional click, on the
    side the strategy gives for the choice index on entry, and moves
    the index on by one. *)
Lemma round_directional k actual p w :
  clicks_work remote k ->
  exists a w',
    round config remote k actual (p, w)
    = (Fulfilled a, (mkPlayer (browser p) (page p) k (S (choiceIndex p)), w'))
    /\ filter isDirectional (map snd (actions w'))
       = (filter isDirectional (map snd (actions w))
          ++ [directionalClick config remote (choiceIndex p)])%list.
Proof.
  intros [Hadvance Hchoice].
  cbv beta iota zeta delta
    [round bind world player shot get ret call try_catch fst snd].
  rewrite Hadvance.
  destruct (mouseClick remote k) as [e|] eqn:Hmouse;
    [destruct Hchoice as [Hm|Hfallback]; [discriminate|]; rewrite Hfallback|];
    match goal with
    | |- context [if ?b then _ else _] =>
        match b with Nat.ltb actual _ => destruct b end
    end;
    eexists; eexists; (split; [reflexivity|]);
    unfold Logger.info, Logger.warn, Logger.success, Logger.error;
    repeat first [ rewrite actions_write | rewrite actions_screenshot
                 | rewrite actions_tick | rewrite actions_deliver
                 | rewrite actions_act ];
    rewrite !map_app, !filter_app; simpl; rewrite ?app_nil_r; reflexivity.
Qed.

(** A round whose clicks do not go through throws the click's error. *)
Lemma round_rejects k actual p w e :
  clickFailure remote k = Some e ->
  exists w',
    round config remote k actual (p, w)
    = (Rejected e, (mkPlayer (browser p) (page p) k (choiceIndex p), w')).
Proof.
  unfold clickFailure. intros Hfail.
  cbv beta iota zeta delta
    [round bind world player shot get ret call try_catch fst snd].
  destruct (advanceClick remote k) as [e0|].
  - injection Hfail as ->. eexists. reflexivity.
  - destruct (mouseClick remote k) as [e1|]; [|discriminate].
    rewrite Hfail. eexists. reflexivity.
Qed.

Lemma rounds_directional n : forall i actual p w,
  (forall k, (i < k <= i + n)%nat -> clicks_work remote k) ->
  exists a p' w',
    rounds config remote n i actual (p, w) = (Fulfilled a, (p', w'))
    /\ filter isDirectional (map snd (actions w'))
       = (filter isDirectional (map snd (actions w))
          ++ map (directionalClick config remote) (seq (choiceIndex p) n))%list.
Proof.
  induction n as [|n IH]; intros i actual p w Hclicks.
  - exists actual, p, w. simpl. rewrite app_nil_r. split; reflexivity.
  - destruct (round_directional (S i) actual p w) as (a1 & w1 & Hround & Hd1).
    { apply Hclicks. lia. }
    destruct (IH (S i) a1 (mkPlayer (browser p) (page p) (S i) (S (choiceIndex p))) w1)
      as (a & p' & w' & Hrest & Hd).
    { intros k Hk. apply Hclicks. lia. }
    exists a, p', w'. cbn [rounds]. unfold bind at 1. rewrite Hround.
    split; [exact Hrest|].
    rewrite Hd, Hd1. cbn [choiceIndex seq map]. rewrite <- app_assoc. reflexivity.
Qed.

(** X8. Over a loop whose clicks go through, the directional clicks are
    one per round, in order, each on the side the strategy gives for
    that round's choice index: the indices run on from the one the loop
    starts with. *)
Theorem loop_follows_strategy n p w :
  (forall k, (0 < k <= n)%nat -> clicks_work remote k) ->
  exists a p' w',
    rounds config remote n 0 0 (p, w) = (Fulfilled a, (p', w'))
    /\ filter isDirectional (map snd (actions w'))
       = (filter isDirectional (map snd (actions w))
          ++ map (directionalClick config remote) (seq (choiceIndex p) n))%list.
Proof. intros Hclicks. apply rounds_directional. intros k Hk. apply Hclicks. lia. Qed.

Lemma rounds_all_verified n : forall i actual p w,
  (forall k, (i < k <= i + n)%nat ->
     clicks_work remote k
     /\ (1 <= activityCount (consoleOnAdvance remote k)
              + activityCount (consoleOnChoice remote k))%nat) ->
  (actual <= length (gameStats w))%nat ->
  exists p' w',
    rounds config remote n i actual (p, w) = (Fulfilled (actual + n)%nat, (p', w'))
    /\ (actual + n <= length (gameStats w'))%nat.
Proof.
  induction n as [|n IH]; intros i actual p w Hrounds Hinv.
  - exists p, w. simpl. unfold ret. rewrite Nat.add_0_r. split; [reflexivity|lia].
  - destruct (Hrounds (S i)) as [Hclicks Hnew]; [lia|].
    destruct (round_completes config remote (S i) actual p w Hclicks)
      as (w1 & Hround & Hstats).
    cbv zeta in Hround, Hstats.
    replace (Nat.ltb actual _) with true in Hround
      by (symmetry; apply Nat.ltb_lt; lia).
    destruct (IH (S i) (S actual)
                (mkPlayer (browser p) (page p) (S i) (S (choiceIndex p))) w1)
      as (p' & w' & Hrest & Hinv').
    { intros k Hk. apply Hrounds. lia. }
    { lia. }
    exists p', w'. cbn [rounds]. unfold bind at 1. rewrite Hround.
    replace (actual + S n)%nat with (S actual + n)%nat by lia.
    split; [exact Hrest|lia].
Qed.

(** X9. When every round's clicks go through and every round brings at
    least one activity message before its check, every round is counted:
    the loop returns the number of its rounds. *)
Theorem all_rounds_verified n p w :
  (forall k, (0 < k <= n)%nat ->
     clicks_work remote k
     /\ (1 <= activityCount (consoleOnAdvance remote k)
              + activityCount (consoleOnChoice remote k))%nat) ->
  exists p' w',
    rounds config remote n 0 0 (p, w) = (Fulfilled n, (p', w')).
Proof.
  intros Hrounds.
  destruct (rounds_all_verified n 0 0 p w) as (p' & w' & Hrun & _).
  - intros k Hk. apply Hrounds. lia.
  - lia.
  - exists p', w'. exact Hrun.
Qed.

Lemma rounds_abort n : forall i actual p w k e,
  (i < k <= i + n)%nat ->
  (forall j, (i < j < k)%nat -> clicks_work remote j) ->
  clickFailure remote k = Some e ->
  (actual <= length (gameStats w))%nat ->
  exists p' w',
    rounds config remote n i actual (p, w) = (Rejected e, (p', w'))
    /\ scenarioCount p' = k
    /\ choiceIndex p' = (choiceIndex p + (k - S i))%nat.
Proof.
  induction n as [|n IH]; intros i actual p w k e Hk Hbefore Hfail Hinv; [lia|].
  cbn [rounds]. unfold bind at 1.
  destruct (Nat.eq_dec k (S i)) as [->|Hne].
  - destruct (round_rejects (S i) actual p w e Hfail) as (w' & ->).
    eexists. eexists. split; [reflexivity|]. simpl. split; lia.
  - destruct (round_completes config remote (S i) actual p w) as (w1 & Hround & Hstats).
    { apply Hbefore. lia. }
    cbv zeta in Hround, Hstats. rewrite Hround.
    match type of Hround with
    | _ = (Fulfilled ?a1, (?p1, _)) =>
        destruct (IH (S i) a1 p1 w1 k e) as (p' & w' & Hrest & Hcount & Hidx)
    end.
    + lia.
    + intros j Hj. apply Hbefore. lia.
    + exact Hfail.
    + destruct (Nat.ltb actual _) eqn:E; [apply Nat.ltb_lt in E|]; lia.
    + exists p', w'. split; [exact Hrest|]. split; [exact Hcount|].
      simpl in Hidx. lia.
Qed.

(** X10. The loop stops at the first round whose clicks do not go through:
    it throws that click's error, and the rounds after it are never
    started. *)
Theorem loop_stops_at_first_failed_click n p w k e :
  (0 < k <= n)%nat ->
  (forall j, (0 < j < k)%nat -> clicks_work remote j) ->
  clickFailure remote k = Some e ->
  exists p' w',
    rounds config remote n 0 0 (p, w) = (Rejected e, (p', w'))
    /\ scenarioCount p' = k
    /\ choiceIndex p' = (choiceIndex p + (k - 1))%nat.
Proof.
  intros Hk Hbefore Hfail.
  apply rounds_abort; try assumption. lia.
Qed.

End LoopTrace.

Section LoopTraceWitnesses.
Import GamePlayer.

(** Four rounds under the pattern left, right. *)
Lemma loop_follows_strategy_witness :
  exists a p' w',
    rounds (Sample.config 4 "pattern") Sample.quiet 4 0 0 (player0, world0)
    = (Fulfilled a, (p', w'))
    /\ filter isDirectional (map snd (actions w'))
       = [MouseClick 1280 720; MouseClick 3840 720;
          MouseClick 1280 720; MouseClick 3840 720].
Proof.
  apply (loop_follows_strategy (Sample.config 4 "pattern") Sample.quiet 4
           player0 world0).
  intros k _. split; [reflexivity|left; reflexivity].
Defined.

Lemma all_rounds_verified_witness :
  exists p' w',
    rounds (Sample.config 3 "left") Sample.chatty 3 0 0 (player0, world0)
    = (Fulfilled 3%nat, (p', w')).
Proof.
  apply (all_rounds_verified (Sample.config 3 "left") Sample.chatty 3
           player0 world0).
  intros k _. split; [split; [reflexivity|left; reflexivity]|].
  vm_compute. apply le_n.
Defined.

Lemma loop_stops_at_first_failed_click_witness :
  exists p' w',
    rounds (Sample.config 3 "left") Sample.brittle 3 0 0 (player0, world0)
    = (Rejected Sample.detached, (p', w'))
    /\ scenarioCount p' = 2%nat
    /\ choiceIndex p' = 1%nat.
Proof.
  apply (loop_stops_at_first_failed_click (Sample.config 3 "left") Sample.brittle
           3 player0 world0 2 Sample.detached).
  - lia.
  - intros j Hj. assert (j = 1%nat) as -> by lia.
    split; [reflexivity|left; reflexivity].
  - reflexivity.
Defined.

End LoopTraceWitnesses.

(** ** Every run returns and cleans up *)

Section Settling.
Import GamePlayer.

Lemma settles_ret {A} (a : A) : settles (ret a).
Proof. intros st. discriminate. Qed.

Lemma settles_throw {A} e : settles (@throw A e).
Proof. intros st. discriminate. Qed.

Lemma settles_world f : settles (world f).
Proof. intros st. discriminate. Qed.

Lemma settles_player f : settles (player f).
Proof. intros st. discriminate. Qed.

Lemma settles_get : settles get.
Proof. intros st. discriminate. Qed.

Lemma settles_call outcome a : settles (call outcome a).
Proof. intros st. unfold call. destruct outcome; discriminate. Qed.

Lemma settles_bind {A B} (m : M A) (k : A -> M B) :
  settles m -> (forall a, settles (k a)) -> settles (bind m k).
Proof.
  intros Hm Hk st. unfold bind. specialize (Hm st).
  destruct (m st) as [[a|e|] st']; simpl in *; [apply Hk|discriminate|congruence].
Qed.

Lemma settles_try_catch {A} (m : M A) (h : Js.Error -> M A) :
  settles m -> (forall e, settles (h e)) -> settles (try_catch m h).
Proof.
  intros Hm Hh st. unfold try_catch. specialize (Hm st).
  destruct (m st) as [[a|e|] st']; simpl in *; [discriminate|apply Hh|congruence].
Qed.

Lemma settles_finally {A} (m : M A) (f : M unit) :
  settles m -> settles f -> settles (finally m f).
Proof.
  intros Hm Hf st. unfold finally. specialize (Hm st).
  destruct (m st) as [[a|e|] st']; simpl in *; try congruence;
    specialize (Hf st'); destruct (f st') as [[u|e'|] st'']; simpl in *;
    congruence || discriminate.
Qed.

Lemma safeExecute_not_pending {V} cfg (op : ErrorHandler.Async V) context page w :
  fst (ErrorHandler.safeExecute cfg op context page w) <> Pending.
Proof.
  unfold ErrorHandler.safeExecute, ErrorHandler.withTimeout.
  assert (Hrec : forall e w0,
            fst (@ErrorHandler.recover V cfg e page context w0) <> Pending).
  { intros e w0. rewrite recover_result.
    destruct (ErrorHandler.verdict cfg e); discriminate. }
  destruct (ErrorHandler.retryWithBackoff cfg op context None w) as [[v|e|] w1];
    try destruct (clock w1 <=? _); simpl; try discriminate; apply Hrec.
Qed.

Variable config : Config.
Variable remote : Remote.

Lemma settles_navigateToGame : settles (navigateToGame config remote).
Proof.
  intros st. unfold navigateToGame.
  pose proof (safeExecute_not_pending (errorHandling config)
                (navigation config remote) "Navigate to game"
                (if page (fst st) then Some (shots remote) else None) (snd st)) as H.
  destruct (ErrorHandler.safeExecute _ _ _ _ _) as [[r|e|] w']; simpl in *;
    [discriminate|discriminate|congruence].
Qed.

Lemma settles_round k actual : settles (round config remote k actual).
Proof.
  unfold round, shot. cbv zeta.
  repeat first
    [ apply settles_ret | apply settles_world | apply settles_player
    | apply settles_get | apply settles_call
    | apply settles_bind; [|intro]
    | apply settles_try_catch; [|intro]
    | match goal with
      | |- settles (if ?b then _ else _) => destruct b
      end ].
Qed.

Lemma settles_rounds n : forall i actual, settles (rounds config remote n i actual).
Proof.
  induction n as [|n IH]; intros i actual; cbn [rounds].
  - apply settles_ret.
  - apply settles_bind; [apply settles_round|intro; apply IH].
Qed.

Lemma settles_body :
  settles
    (ok <- init remote ;;
     require ok "Failed to initialize browser" ;;;
     ok <- navigateToGame config remote ;;
     require ok "Failed to navigate to game" ;;;
     ok <- startGame config remote ;;
     require ok "Failed to start game" ;;;
     scenariosPlayed <- playScenarios config remote ;;
     world (Logger.success
              ("Game completed successfully! Played "
                 ++ Js.show (Z.of_nat scenariosPlayed) ++ " scenarios") []) ;;;
     st <- get ;;
     (if Nat.ltb 0 (length (gameStats (snd st)))
      then world (Logger.success
             "Game statistics were captured - indicating actual gameplay occurred!" [])
      else ret tt) ;;;
     ret true).
Proof.
  unfold init, startGame, playScenarios, require, shot.
  repeat first
    [ apply settles_ret | apply settles_throw | apply settles_world
    | apply settles_player | apply settles_get | apply settles_call
    | apply settles_navigateToGame | apply settles_rounds
    | apply settles_bind; [|intro]
    | apply settles_try_catch; [|intro]
    | match goal with
      | |- settles (if ?b then _ else _) => destruct b
      | |- settles (match ?x with Some _ => _ | None => _ end) => destruct x
      end ].
Qed.

(** [cleanup] cannot fail, leaves the player as it is, and ends by
    finalizing the logger. *)
Lemma cleanup_finalizes st :
  exists w' earlier t,
    cleanup remote st = (Fulfilled tt, (fst st, w'))
    /\ actions w' = (earlier ++ [(t, Finalize)])%list.
Proof.
  destruct st as [p w].
  unfold cleanup, finally, try_catch, bind, get, call, world, ret. cbn [fst snd].
  destruct (page p), (pageClose remote), (browser p), (browserClose remote);
    cbn [fst snd]; eexists; eexists; eexists; (split; [reflexivity|]);
    cbn [actions act]; reflexivity.
Qed.

Lemma playGame_returns st :
  exists verdict p' w' earlier t,
    playGame config remote st = (Fulfilled verdict, (p', w'))
    /\ actions w' = (earlier ++ [(t, Finalize)])%list.
Proof.
  unfold playGame.
  match goal with
  | |- context [try_catch ?b ?h] => set (body := b); set (handler := h)
  end.
  pose proof (settles_body st) as Hbody. fold body in Hbody.
  unfold finally, try_catch.
  destruct (body st) as [[b|e|] st1]; simpl in Hbody; [| |congruence].
  - destruct (cleanup_finalizes st1) as (w' & earlier & t & Hclean & Hact).
    rewrite Hclean. exists b, (fst st1), w', earlier, t. split; [reflexivity|exact Hact].
  - subst handler. cbv beta. unfold bind at 1, world at 1.
    cbv beta iota. unfold ret at 1.
    match goal with
    | |- context [cleanup remote ?s] =>
        destruct (cleanup_finalizes s) as (w' & earlier & t & Hclean & Hact)
    end.
    rewrite Hclean. cbn [fst].
    exists false, (fst st1), w', earlier, t. split; [reflexivity|exact Hact].
Qed.


End Settling.

(** ** A run that goes through *)

Section GoodRun.
Import GamePlayer.
Variable config : Config.
Variable remote : Remote.

(** [startGame] answers [true] whatever the click on the page does. *)
Lemma startGame_returns p w :
  exists w', startGame config remote (p, w) = (Fulfilled true, (p, w')).
Proof.
  unfold startGame, try_catch, bind, world, call, ret. cbn [fst snd].
  destruct (startClick remote); eexists; reflexivity.
Qed.

Lemma playScenarios_completes p w :
  (forall k, (0 < k <= Z.to_nat (maxScenarios config))%nat -> clicks_work remote k) ->
  exists a p' w',
    playScenarios config remote (p, w) = (Fulfilled a, (p', w'))
    /\ choiceIndex p' = (choiceIndex p + Z.to_nat (maxScenarios config))%nat.
Proof.
  intros Hclicks. unfold playScenarios.
  unfold bind at 1, world at 1. cbn [fst snd]. unfold bind at 1.
  match goal with
  | |- context [rounds config remote ?n 0 0 (p, ?w0)] =>
      destruct (rounds_complete config remote n 0 0 p w0)
        as (a & p' & w' & Hrun & Hidx & _)
  end.
  { intros k Hk. apply Hclicks. lia. }
  { lia. }
  rewrite Hrun. exists a, p'.
  unfold bind, shot, world, get, ret. cbn [fst snd].
  eexists. split; [reflexivity|exact Hidx].
Qed.

(** X12. A run returns success once [init] and [navigateToGame] have
    returned [true] and the clicks of every round go through.  Nothing
    else that happens after [navigateToGame] bears on the verdict: not
    whether the click that starts the game works or throws, not whether
    the screenshots of [startGame] and of the rounds can be taken, not
    the console traffic, hence not the number of rounds counted as
    verified. *)
Theorem playGame_succeeds st1 st2 :
  init remote (player0, world0) = (Fulfilled true, st1) ->
  navigateToGame config remote st1 = (Fulfilled true, st2) ->
  (forall k, (0 < k <= Z.to_nat (maxScenarios config))%nat -> clicks_work remote k) ->
  exists st',
    playGame config remote (player0, world0) = (Fulfilled true, st')
    /\ choiceIndex (fst st') = Z.to_nat (maxScenarios config).
Proof.
  intros Hinit Hnav Hclicks.
  assert (Hidx0 : choiceIndex (fst st2) = 0%nat).
  { assert (H1 : choiceIndex (fst st1) = 0%nat).
    { revert Hinit. unfold init.
      destruct (launch remote); [discriminate|].
      destruct (newPage remote); [discriminate|].
      intros H. injection H as <-. reflexivity. }
    revert Hnav. unfold navigateToGame.
    destruct (ErrorHandler.safeExecute _ _ _ _ _) as [[r|e|] w']; try discriminate.
    intros H. injection H as _ <-. exact H1. }
  destruct st2 as [p2 w2]. cbn [fst] in Hidx0.
  destruct (startGame_returns p2 w2) as (w3 & Hstart).
  destruct (playScenarios_completes p2 w3 Hclicks) as (a & p4 & w4 & Hplay & Hidx).
  rewrite Hidx0 in Hidx. cbn [Nat.add] in Hidx.
  unfold playGame, finally, try_catch.
  unfold bind at 1. rewrite Hinit.
  unfold require at 1. cbn [negb]. unfold bind at 1, ret at 1.
  unfold bind at 1. rewrite Hnav.
  unfold require at 1. cbn [negb]. unfold bind at 1, ret at 1.
  unfold bind at 1. rewrite Hstart.
  unfold require at 1. cbn [negb]. unfold bind at 1, ret at 1.
  unfold bind at 1. rewrite Hplay.
  unfold bind, world, get, ret. cbn [fst snd].
  destruct (Nat.ltb 0 (length (gameStats _))); cbv beta iota; cbn [fst snd];
    match goal with
    | |- context [cleanup remote ?s] =>
        destruct (cleanup_finalizes remote s) as (w' & earlier & t & Hclean & _)
    end;
    rewrite Hclean; cbn [fst];
    eexists; (split; [reflexivity|]); exact Hidx.
Qed.

(** X13. When the browser cannot be launched the run fails and only
    finalizes the logger; when the browser is up and opening the page
    throws, the browser is still closed. *)
Theorem failed_init_releases_what_it_holds :
  (forall e, launch remote = Some e ->
     exists st',
       playGame config remote (player0, world0) = (Fulfilled false, st')
       /\ map snd (actions (snd st')) = [Finalize])
  /\ (forall e, launch remote = None -> newPage remote = Some e ->
        exists st',
          playGame config remote (player0, world0) = (Fulfilled false, st')
          /\ map snd (actions (snd st')) = [CloseBrowser; Finalize]).
Proof.
  split.
  - intros e Hlaunch.
    unfold playGame, finally, try_catch, init. rewrite Hlaunch.
    unfold bind, world, ret, require, throw, cleanup, finally, try_catch, get, call.
    cbn [fst snd negb page browser player0].
    eexists. split; reflexivity.
  - intros e Hlaunch HnewPage.
    unfold playGame, finally, try_catch, init. rewrite Hlaunch, HnewPage.
    unfold bind, world, player, ret, require, throw, cleanup, finally, try_catch,
      get, call.
    cbn [fst snd negb page browser player0].
    destruct (browserClose remote); eexists; split; reflexivity.
Qed.

(** X14. [makeChoice] never throws: it answers whether the click went
    through, and moves the choice index on only when it did. *)
Theorem makeChoice_counts_only_successes p w :
  exists w',
    makeChoice config remote (p, w)
    = (Fulfilled (match mouseClick remote (scenarioCount p) with
                  | None => true
                  | Some _ => false
                  end),
       (mkPlayer (browser p) (page p) (scenarioCount p)
          (match mouseClick remote (scenarioCount p) with
           | None => S (choiceIndex p)
           | Some _ => choiceIndex p
           end), w')).
Proof.
  unfold makeChoice, try_catch, bind, get, world, player, call, ret. cbn [fst snd].
  destruct (mouseClick remote (scenarioCount p)); cbn [fst snd].
  - destruct p. eexists. reflexivity.
  - eexists. reflexivity.
Qed.

End GoodRun.

Section GoodRunWitnesses.
Import GamePlayer.


Lemma playGame_succeeds_witness :
  exists st',
    playGame (Sample.config 3 "pattern") Sample.quiet (player0, world0)
    = (Fulfilled true, st')
    /\ choiceIndex (fst st') = 3%nat.
Proof.
  eapply (playGame_succeeds (Sample.config 3 "pattern") Sample.quiet).
  - vm_compute. reflexivity.
  - vm_compute. reflexivity.
  - intros k _. split; [reflexivity|left; reflexivity].
Defined.

Lemma failed_init_releases_what_it_holds_witness :
  exists st',
    playGame (Sample.config 3 "pattern")
      (mkRemote None (Some (Js.mkError "Target closed")) (mkPage (fun _ => true))
         (fun _ => Hangs) [] None [] (fun _ => None) (fun _ => [])
         (fun _ => None) (fun _ => None) (fun _ => []) (fun _ => [])
         (fun _ => true) None None)
      (player0, world0)
    = (Fulfilled false, st')
    /\ map snd (actions (snd st')) = [CloseBrowser; Finalize].
Proof.
  eapply (proj2 (failed_init_releases_what_it_holds (Sample.config 3 "pattern") _));
    reflexivity.
Defined.

End GoodRunWitnesses.

(** ** The daily schedule *)

Section DailySchedule.
Import Scheduler.

Lemma append_empty s : (s ++ "")%string = s.
Proof. induction s as [|a s IH]; simpl; [|rewrite IH]; reflexivity. Qed.

Lemma append_char cur c s :
  ((cur ++ String c "") ++ s)%string = (cur ++ String c s)%string.
Proof. induction cur as [|a cur IH]; simpl; [|rewrite IH]; reflexivity. Qed.

Lemma split_go_plain s : forall cur,
  Js.includes s ":" = false ->
  Js.split_go ":" s 0 cur = [(cur ++ s)%string].
Proof.
  induction s as [|c s IH]; intros cur Hno.
  - simpl. rewrite append_empty. reflexivity.
  - cbn [Js.includes] in Hno. apply orb_false_iff in Hno as [Hhere Hrest].
    cbn [Js.split_go]. rewrite Hhere, (IH _ Hrest), append_char. reflexivity.
Qed.

Lemma split_go_colon h : forall cur rest,
  Js.includes h ":" = false ->
  Js.split_go ":" (h ++ String ":" rest) 0 cur
  = (cur ++ h)%string :: Js.split_go ":" rest 0 "".
Proof.
  induction h as [|c h IH]; intros cur rest Hno.
  - simpl. rewrite append_empty. reflexivity.
  - cbn [Js.includes] in Hno. apply orb_false_iff in Hno as [Hhere Hrest].
    change ((String c h ++ String ":" rest)%string)
      with (String c (h ++ String ":" rest)).
    cbn [Js.split_go].
    assert (Hs : Js.starts ":" (String c (h ++ String ":" rest)) = false).
    { cbn [Js.starts] in Hhere |- *. rewrite andb_true_r in Hhere |- *.
      exact Hhere. }
    rewrite Hs, (IH _ _ Hrest), append_char. reflexivity.
Qed.

Lemma cronExpression_of_time hour minute :
  Js.includes hour ":" = false ->
  Js.includes minute ":" = false ->
  cronExpression (hour ++ ":" ++ minute) = (minute ++ " " ++ hour ++ " * * *")%string.
Proof.
  intros Hh Hm. unfold cronExpression, Js.split.
  change ((hour ++ ":" ++ minute)%string) with ((hour ++ String ":" minute)%string).
  rewrite (split_go_colon hour "" minute Hh), (split_go_plain minute "" Hm).
  reflexivity.
Qed.

Lemma cronExpression_plain time :
  Js.includes time ":" = false ->
  cronExpression time = ("undefined " ++ time ++ " * * *")%string.
Proof.
  intros Hno. unfold cronExpression, Js.split.
  rewrite (split_go_plain time "" Hno). reflexivity.
Qed.

(** X15. With scheduling enabled and a time of day [HH:MM], [start] asks
    cron for the expression [MM HH * * *]; when cron takes it, that task
    is added to the schedule, the scheduler holds its handle, and the
    answer is [true]. *)
Theorem start_schedules_daily hour minute accepts t :
  Js.includes hour ":" = false ->
  Js.includes minute ":" = false ->
  accepts (minute ++ " " ++ hour ++ " * * *")%string = None ->
  exists t',
    start true (hour ++ ":" ++ minute) accepts t = (inl true, t')
    /\ cronJob t' = Some (issued (cron t))
    /\ tasks (cron t')
       = (tasks (cron t)
          ++ [(issued (cron t), (minute ++ " " ++ hour ++ " * * *")%string)])%list.
Proof.
  intros Hh Hm Hok. unfold start. cbn [negb].
  rewrite (cronExpression_of_time hour minute Hh Hm). cbv zeta. rewrite Hok.
  eexists. split; [reflexivity|]. split; reflexivity.
Qed.

(** X16. A time of day without a colon makes [start] ask cron for
    [undefined <time> * * *]; when cron throws on it, [start] throws
    too and nothing is scheduled. *)
Theorem start_without_colon time accepts e t :
  Js.includes time ":" = false ->
  accepts ("undefined " ++ time ++ " * * *")%string = Some e ->
  exists t',
    start true time accepts t = (inr e, t')
    /\ cronJob t' = cronJob t
    /\ cron t' = cron t.
Proof.
  intros Hno Hbad. unfold start. cbn [negb].
  rewrite (cronExpression_plain time Hno). cbv zeta. rewrite Hbad.
  eexists. split; [reflexivity|]. split; reflexivity.
Qed.

Lemma start_accepted time accepts t :
  accepts (cronExpression time) = None ->
  exists t',
    start true time accepts t = (inl true, t')
    /\ cronJob t' = Some (issued (cron t))
    /\ cron t' = mkCron (tasks (cron t) ++ [(issued (cron t), cronExpression time)])
                   (S (issued (cron t))).
Proof.
  intros Hok. unfold start. cbn [negb]. cbv zeta. rewrite Hok.
  eexists. split; [reflexivity|]. split; reflexivity.
Qed.

Lemma stop_held t handle :
  cronJob t = Some handle ->
  cronJob (stop t) = None
  /\ tasks (cron (stop t))
     = filter (fun task => negb (Nat.eqb (fst task) handle)) (tasks (cron t)).
Proof. intros H. unfold stop. rewrite H. split; reflexivity. Qed.

(** X17. [start] does not look at the task it already holds: called twice it
    schedules two tasks and keeps the handle of the second only, so
    [stop] takes that one off and the first stays on the schedule, out
    of reach of any later [stop]. *)
Theorem second_start_strands_first_task time accepts :
  accepts (cronExpression time) = None ->
  let once := snd (start true time accepts idle) in
  let twice := snd (start true time accepts once) in
  tasks (cron twice) = [(0%nat, cronExpression time); (1%nat, cronExpression time)]
  /\ tasks (cron (stop twice)) = [(0%nat, cronExpression time)]
  /\ cronJob (stop twice) = None
  /\ stop (stop twice) = stop twice.
Proof.
  intros Hok once twice.
  destruct (start_accepted time accepts idle Hok) as (t1 & H1 & Hjob1 & Hcron1).
  assert (Eonce : once = t1) by (subst once; rewrite H1; reflexivity).
  destruct (start_accepted time accepts t1 Hok) as (t2 & H2 & Hjob2 & Hcron2).
  assert (Etwice : twice = t2) by (subst twice; rewrite Eonce, H2; reflexivity).
  rewrite Etwice. rewrite Hcron1 in Hjob2, Hcron2. cbn in Hjob2, Hcron2.
  destruct (stop_held t2 1%nat Hjob2) as [Hnone Htasks].
  rewrite Hcron2 in Htasks. cbn in Htasks.
  rewrite Hcron2, Htasks, Hnone. repeat split.
  unfold stop at 1. rewrite Hnone. reflexivity.
Qed.

Lemma step_accounts s e s' :
  step s e = Some s' ->
  (length (filter isInvocation (trace s')) + inFlight s
   = length (filter isInvocation (trace s)) + inFlight s'
     + (if isTrigger e then 0 else 1))%nat
  /\ (length (filter isReturn (trace s')) + inFlight s'
      = length (filter isReturn (trace s)) + inFlight s
        + (if isTrigger e then 1 else 0))%nat.
Proof.
  destruct e as [ctor|o]; simpl.
  - unfold runGame_enter. destruct (isRunning s); [|destruct ctor];
      intros H; injection H as <-; simpl;
      rewrite !filter_app, !length_app; simpl; lia.
  - destruct (inFlight s) as [|k] eqn:En; [discriminate|].
    intros H. injection H as <-. simpl. rewrite ?En.
    rewrite !filter_app, !length_app; simpl. destruct o; simpl; lia.
Qed.

Lemma run_accounts es : forall s s',
  run s es = Some s' ->
  (length (filter isInvocation (trace s')) + inFlight s
   = length (filter isInvocation (trace s)) + inFlight s'
     + length (filter (fun e => negb (isTrigger e)) es))%nat
  /\ (length (filter isReturn (trace s')) + inFlight s'
      = length (filter isReturn (trace s)) + inFlight s
        + length (filter isTrigger es))%nat.
Proof.
  induction es as [|e es IH]; intros s s' Hrun; simpl in Hrun.
  - injection Hrun as <-. simpl. lia.
  - destruct (step s e) as [s1|] eqn:Hstep; [|discriminate].
    destruct (step_accounts s e s1 Hstep) as [H1 H2].
    destruct (IH s1 s' Hrun) as [G1 G2].
    simpl. destruct (isTrigger e); simpl; lia.
Qed.

(** X18. Over any sequence of triggers and settlements, every trigger is
    answered exactly once (at once when it is dropped, at the settlement
    when it started a run), and the runs started are the runs settled
    plus the one in flight: a dropped trigger is not queued. *)
Theorem every_trigger_answered_once es s :
  run fresh es = Some s ->
  (length (filter isReturn (trace s)) + inFlight s
   = length (filter isTrigger es))%nat
  /\ (length (filter isInvocation (trace s))
      = length (filter (fun e => negb (isTrigger e)) es) + inFlight s)%nat.
Proof.
  intros Hrun. destruct (run_accounts es fresh s Hrun) as [H1 H2].
  simpl in H1, H2. lia.
Qed.

End DailySchedule.

Section DailyScheduleWitnesses.
Import Scheduler.

Lemma start_schedules_daily_witness :
  exists t',
    start true "09:30" (fun _ => None) idle = (inl true, t')
    /\ cronJob t' = Some 0%nat
    /\ tasks (cron t') = [(0%nat, "30 09 * * *")].
Proof.
  apply (start_schedules_daily "09" "30" (fun _ => None) idle); reflexivity.
Defined.

Lemma start_without_colon_witness :
  exists t',
    start true "0930" (fun _ => Some (Js.mkError "undefined is a invalid expression for minute"))
      idle
    = (inr (Js.mkError "undefined is a invalid expression for minute"), t')
    /\ cronJob t' = None
    /\ cron t' = mkCron [] 0.
Proof.
  apply (start_without_colon "0930"
           (fun _ => Some (Js.mkError "undefined is a invalid expression for minute"))
           (Js.mkError "undefined is a invalid expression for minute") idle);
    reflexivity.
Defined.

Lemma second_start_strands_first_task_witness :
  tasks (cron (stop (snd (start true "09:30" (fun _ => None)
                            (snd (start true "09:30" (fun _ => None) idle))))))
  = [(0%nat, "30 09 * * *")].
Proof.
  apply (second_start_strands_first_task "09:30" (fun _ => None) eq_refl).
Defined.

Lemma every_trigger_answered_once_witness :
  exists s,
    run fresh [Trigger None; Trigger None; Settle (Returns true); Trigger None]
    = Some s
    /\ (length (filter isReturn (trace s)) + inFlight s = 3)%nat.
Proof.
  eexists. split; [reflexivity|].
  apply (every_trigger_answered_once
           [Trigger None; Trigger None; Settle (Returns true); Trigger None]).
  reflexivity.
Defined.

End DailyScheduleWitnesses.

(** ** The command line *)

Section CommandLine.
Import Cli.

Lemma includes_In args flag : includes args flag = true <-> In flag args.
Proof.
  unfold includes. rewrite existsb_exists. split.
  - intros (x & Hin & Heq). apply String.eqb_eq in Heq. subst. exact Hin.
  - intros Hin. exists flag. split; [exact Hin|apply String.eqb_refl].
Qed.

(** X19. A help flag wins over every other flag, a status flag over a manual
    flag: with [--help] or [-h] among the arguments the game is not run
    and the scheduler is not started, whatever else is given. *)
Theorem help_flag_wins args :
  (In "--help" args \/ In "-h" args -> mode args = Help)
  /\ (In "--status" args \/ In "-s" args -> mode args <> Manual /\ mode args <> Daemon).
Proof.
  unfold mode. split.
  - intros H.
    assert (E : includes args "--help" || includes args "-h" = true).
    { apply orb_true_iff. destruct H as [H|H]; [left|right];
        apply includes_In; exact H. }
    rewrite E. reflexivity.
  - intros H.
    assert (E : includes args "--status" || includes args "-s" = true).
    { apply orb_true_iff. destruct H as [H|H]; [left|right];
        apply includes_In; exact H. }
    rewrite E. destruct (includes args "--help" || includes args "-h");
      split; discriminate.
Qed.

(** X20. A manual run whose player could be constructed never leaves
    through the failure handler of [main], because [playGame] does not
    throw; and once the run has returned, the process exits with code 0
    when its verdict is success and with code 1 otherwise. *)
Theorem manual_run_exits_with_verdict config remote :
  (forall code, runManual config remote None <> ExitFailure code)
  /\ (forall verdict,
        fst (GamePlayer.playGame config remote (GamePlayer.player0, world0))
        = Fulfilled verdict ->
        runManual config remote None = ExitVerdict (if verdict then 0 else 1)).
Proof.
  unfold runManual.
  destruct (playGame_returns config remote (GamePlayer.player0, world0))
    as (verdict & p' & w' & earlier & t & Hrun & _).
  rewrite Hrun. cbn [fst]. split; [discriminate|].
  intros verdict' H. injection H as <-. reflexivity.
Qed.

(** X21. In scheduler mode the branch that prints "Failed to start
    scheduler" is never taken: with scheduling disabled the process
    exits with code 0 and nothing scheduled, and otherwise [start]
    answers [true], so the scheduler goes into service with one task, or
    cron throws and the process exits through the handler of [main]. *)
Theorem scheduler_start_never_reports_failure enabled dailyRunTime accepts :
  (forall code,
     fst (startScheduler enabled dailyRunTime accepts) <> ExitNotStarted code)
  /\ (enabled = false ->
      startScheduler enabled dailyRunTime accepts = (ExitDisabled 0, Scheduler.idle))
  /\ (enabled = true ->
      accepts (Scheduler.cronExpression dailyRunTime) = None ->
      fst (startScheduler enabled dailyRunTime accepts) = InService
      /\ length (Scheduler.tasks (Scheduler.cron
                   (snd (startScheduler enabled dailyRunTime accepts)))) = 1%nat).
Proof.
  unfold startScheduler, Scheduler.start.
  destruct enabled; cbn [negb]; cbv zeta.
  - destruct (accepts (Scheduler.cronExpression dailyRunTime)) eqn:E;
      (split; [intros code; simpl; discriminate|]);
      (split; [discriminate|]); intros _ H; [discriminate|].
    split; reflexivity.
  - split; [intros code; simpl; discriminate|].
    split; [reflexivity|discriminate].
Qed.

End CommandLine.

Section CommandLineWitnesses.
Import Cli.

Lemma help_flag_wins_witness : mode ["--manual"; "-h"] = Help.
Proof.
  apply (proj1 (help_flag_wins ["--manual"; "-h"])).
  right. simpl. right. left. reflexivity.
Defined.

Lemma manual_run_exits_with_verdict_witness :
  runManual (Sample.config 3 "pattern") Sample.quiet None = ExitVerdict 0.
Proof.
  apply (proj2 (manual_run_exits_with_verdict (Sample.config 3 "pattern")
                  Sample.quiet) true).
  vm_compute. reflexivity.
Defined.

Lemma scheduler_start_never_reports_failure_witness :
  fst (startScheduler true "09:30" (fun _ => None)) = InService.
Proof.
  apply (proj2 (proj2 (scheduler_start_never_reports_failure true "09:30"
                         (fun _ => None)))); reflexivity.
Defined.

End CommandLineWitnesses.

(** ** Log retention *)

Section Retention.
Import Logger.

Lemma sweep_only_old_logs cutoff files : forall w name,
  In name (snd (fst (sweep cutoff files w))) ->
  exists file modified,
    In file files /\ fileName file = name
    /\ mtime file = inl modified /\ modified < cutoff
    /\ Js.endsWith name ".log" = true.
Proof.
  induction files as [|file rest IH]; intros w name Hin; [destruct Hin|].
  cbn [sweep] in Hin.
  destruct (mtime file) as [modified|e] eqn:Hm; [|destruct Hin].
  destruct ((modified <? cutoff) && Js.endsWith (fileName file) ".log") eqn:Hold.
  - destruct (unlink file); [destruct Hin|].
    destruct (sweep cutoff rest _) as [[failure deleted] w2] eqn:Hrest.
    cbn [fst snd] in Hin. destruct Hin as [<-|Hin].
    + apply andb_true_iff in Hold as [Hlt Hlog]. apply Z.ltb_lt in Hlt.
      exists file, modified. repeat split; auto. left. reflexivity.
    + destruct (IH (info ("Cleaned up old log file: " ++ fileName file) [] w) name)
        as (f & m & Hf & Hrest').
      { rewrite Hrest. exact Hin. }
      exists f, m. split; [right; exact Hf|exact Hrest'].
  - destruct (IH w name Hin) as (f & m & Hf & Hrest').
    exists f, m. split; [right; exact Hf|exact Hrest'].
Qed.

(** X22. [cleanupOldLogs] deletes nothing but files of the directory whose
    name ends in [.log] and that were last modified before the cutoff.
    The network and console records, which end in [.json], are never
    deleted however old they are. *)
Theorem cleanup_deletes_only_old_logs cutoff listing w name :
  In name (fst (cleanupOldLogs cutoff listing w)) ->
  Js.endsWith name ".log" = true
  /\ exists files file modified,
       listing = inl files /\ In file files /\ fileName file = name
       /\ mtime file = inl modified /\ modified < cutoff.
Proof.
  unfold cleanupOldLogs. destruct listing as [files|e]; [|intros []].
  intros Hin.
  destruct (sweep_only_old_logs cutoff files w name)
    as (file & modified & Hf & Hname & Hm & Hlt & Hlog).
  { destruct (sweep cutoff files w) as [[[e|] deleted] w']; exact Hin. }
  split; [exact Hlog|]. exists files, file, modified. auto.
Qed.

Lemma sweep_clean cutoff files : forall w,
  Forall (fun file => exists modified,
            mtime file = inl modified /\ unlink file = None) files ->
  fst (sweep cutoff files w)
  = (None,
     map fileName
       (filter (fun file =>
                  match mtime file with
                  | inl modified =>
                      (modified <? cutoff) && Js.endsWith (fileName file) ".log"
                  | inr _ => false
                  end) files)).
Proof.
  induction files as [|file rest IH]; intros w Hall; [reflexivity|].
  inversion Hall as [|? ? (modified & Hm & Hu) Hrest]; subst.
  cbn [sweep filter]. rewrite Hm.
  destruct ((modified <? cutoff) && Js.endsWith (fileName file) ".log").
  - rewrite Hu.
    specialize (IH (info ("Cleaned up old log file: " ++ fileName file) [] w) Hrest).
    destruct (sweep cutoff rest _) as [[failure deleted] w2].
    cbn [fst] in IH |- *. injection IH as -> ->. reflexivity.
  - apply IH. exact Hrest.
Qed.

(** X23. When no call on the file system throws, [cleanupOldLogs] deletes
    every file that ends in [.log] and is older than the cutoff, in
    directory order. *)
Theorem cleanup_deletes_every_old_log cutoff files w :
  Forall (fun file => exists modified,
            mtime file = inl modified /\ unlink file = None) files ->
  fst (cleanupOldLogs cutoff (inl files) w)
  = map fileName
      (filter (fun file =>
                 match mtime file with
                 | inl modified =>
                     (modified <? cutoff) && Js.endsWith (fileName file) ".log"
                 | inr _ => false
                 end) files).
Proof.
  intros Hall. unfold cleanupOldLogs.
  pose proof (sweep_clean cutoff files w Hall) as H.
  destruct (sweep cutoff files w) as [[failure deleted] w'].
  cbn [fst] in H. injection H as -> ->. reflexivity.
Qed.

End Retention.

Section RetentionWitnesses.
Import Logger.

(** Three files of day 10 and one of day 40, swept with the cutoff at
    day 33. *)
Lemma cleanup_deletes_only_old_logs_witness :
  Js.endsWith "2025-01-10T09-30-00.log" ".log" = true.
Proof.
  apply (cleanup_deletes_only_old_logs 33 (inl Sample.shelf) world0
           "2025-01-10T09-30-00.log").
  left. reflexivity.
Defined.

Lemma cleanup_deletes_every_old_log_witness :
  fst (cleanupOldLogs 33 (inl Sample.shelf) world0) = ["2025-01-10T09-30-00.log"].
Proof.
  apply (cleanup_deletes_every_old_log 33 Sample.shelf world0).
  repeat constructor; eexists; split; reflexivity.
Defined.

End RetentionWitnesses.

(** ** Searching the page by selector *)

Section Selectors.
Import GamePlayer.
Variable query : string -> option nat + Js.Error.

Lemma firstFound_first selectorList :
  match firstFound query selectorList with
  | Some element =>
      exists before selector after,
        selectorList = (before ++ selector :: after)%list
        /\ query (Js.trim selector) = inl (Some element)
        /\ forall earlier, In earlier before ->
             forall found, query (Js.trim earlier) <> inl (Some found)
  | None =>
      forall selector, In selector selectorList ->
        forall found, query (Js.trim selector) <> inl (Some found)
  end.
Proof.
  induction selectorList as [|selector rest IH]; cbn [firstFound].
  - intros selector [].
  - destruct (query (Js.trim selector)) as [[element|]|e] eqn:Hq.
    + exists [], selector, rest. split; [reflexivity|].
      split; [exact Hq|]. intros earlier [].
    + destruct (firstFound query rest) as [element|].
      * destruct IH as (before & sel & after & -> & Hsel & Hbefore).
        exists (selector :: before), sel, after. split; [reflexivity|].
        split; [exact Hsel|].
        intros earlier [<-|Hin] found; [congruence|apply Hbefore; exact Hin].
      * intros sel [<-|Hin] found; [congruence|apply IH; exact Hin].
    + destruct (firstFound query rest) as [element|].
      * destruct IH as (before & sel & after & -> & Hsel & Hbefore).
        exists (selector :: before), sel, after. split; [reflexivity|].
        split; [exact Hsel|].
        intros earlier [<-|Hin] found; [congruence|apply Hbefore; exact Hin].
      * intros sel [<-|Hin] found; [congruence|apply IH; exact Hin].
Qed.

(** X24. For a selector list of ASCII characters, [findChoiceElement]
    gives the element of the first selector of the list, cut at [", "]
    and trimmed, for which the page has one; a selector on which the
    query throws is passed over like one that finds nothing; the answer
    is [null] only when no selector finds an element. *)
Theorem findChoiceElement_first_match selectors :
  Js.isAscii selectors = true ->
  match findChoiceElement query selectors with
  | Some element =>
      exists before selector after,
        Js.split selectors ", " = (before ++ selector :: after)%list
        /\ query (Js.trim selector) = inl (Some element)
        /\ forall earlier, In earlier before ->
             forall found, query (Js.trim earlier) <> inl (Some found)
  | None =>
      forall selector, In selector (Js.split selectors ", ") ->
        forall found, query (Js.trim selector) <> inl (Some found)
  end.
Proof. intros _. unfold findChoiceElement. apply firstFound_first. Qed.

Variable remote : Remote.

Lemma firstEnd_firstFound selectorList : forall st,
  fst (firstEnd remote query selectorList st)
  = Fulfilled (match firstFound query selectorList with
               | Some _ => true
               | None => false
               end).
Proof.
  induction selectorList as [|selector rest IH]; intros st;
    cbn [firstEnd firstFound]; [reflexivity|].
  destruct (query (Js.trim selector)) as [[element|]|e]; [reflexivity| |]; apply IH.
Qed.

(** X25. [checkGameEnd] never throws, and it answers [true] exactly when
    [findChoiceElement] finds an element for the same selectors; when
    the configuration has no end selector it answers [false]. *)
Theorem checkGameEnd_agrees_with_search st :
  (forall selectors,
     fst (checkGameEnd remote query (Some selectors) st)
     = Fulfilled (match findChoiceElement query selectors with
                  | Some _ => true
                  | None => false
                  end))
  /\ fst (checkGameEnd remote query None st) = Fulfilled false.
Proof.
  split; [|reflexivity].
  intros selectors. unfold checkGameEnd, findChoiceElement.
  apply firstEnd_firstFound.
Qed.

End Selectors.

Section SelectorsExample.
Import GamePlayer.

Lemma findChoiceElement_first_match_witness :
  exists before selector after,
    Js.split "#broken, .choice-left,  .choice-right , button" ", "
    = (before ++ selector :: after)%list
    /\ Sample.dom (Js.trim selector) = inl (Some 7%nat)
    /\ forall earlier, In earlier before ->
         forall found, Sample.dom (Js.trim earlier) <> inl (Some found).
Proof.
  apply (findChoiceElement_first_match Sample.dom
           "#broken, .choice-left,  .choice-right , button").
  reflexivity.
Defined.

(** The query throws on the first selector and finds nothing for the
    second; the third, once trimmed, names element 7. *)
Example findChoiceElement_skips_failures :
  findChoiceElement Sample.dom "#broken, .choice-left,  .choice-right , button" = Some 7%nat.
Proof. reflexivity. Qed.

End SelectorsExample.

(** ** Waiting for the page *)

Section Waiting.
Import GamePlayer.
Variable poll : nat -> attempt bool.
Variable startTime timeout : Z.

Lemma polling_answers fuel : forall k st answer st',
  timeout <= clock (snd st) - startTime + 500 * Z.of_nat fuel ->
  polling poll startTime timeout fuel k st = (Fulfilled answer, st') ->
  if answer
  then exists j d, (k <= j)%nat /\ poll j = Settles d (inl true)
  else timeout <= clock (snd st') - startTime.
Proof.
  induction fuel as [|fuel IH]; intros k st answer st' Hfuel Hrun.
  - cbn [polling] in Hrun. unfold timedOut, bind, world, ret in Hrun.
    injection Hrun as <- <-. simpl. lia.
  - cbn [polling] in Hrun.
    destruct (clock (snd st) - startTime <? timeout) eqn:Hcond.
    + destruct (poll k) as [d [[|]|e]|] eqn:Hpoll; [| | |discriminate].
      * unfold bind, world, ret in Hrun. injection Hrun as <- <-.
        exists k, d. split; [lia|exact Hpoll].
      * unfold bind at 1 2, world at 1 2 in Hrun. cbn [fst snd] in Hrun.
        apply IH in Hrun.
        -- destruct answer; [|exact Hrun].
           destruct Hrun as (j & d' & Hj & Hfound). exists j, d'. split; [lia|exact Hfound].
        -- unfold ErrorHandler.sleep. cbn [snd clock tick].
           change (Js.timerDelay 500) with 500. lia.
      * unfold bind at 1 2, world at 1 2 in Hrun. cbn [fst snd] in Hrun.
        apply IH in Hrun.
        -- destruct answer; [|exact Hrun].
           destruct Hrun as (j & d' & Hj & Hfound). exists j, d'. split; [lia|exact Hfound].
        -- unfold ErrorHandler.sleep. cbn [snd clock tick].
           change (Js.timerDelay 500) with 500. lia.
    + unfold timedOut, bind, world, ret in Hrun. injection Hrun as <- <-.
      apply Z.ltb_ge in Hcond. simpl. exact Hcond.
Qed.

End Waiting.

Section WaitingClaims.
Import GamePlayer.

(** X26. [waitForGameState] answers [true] only when a poll has found choice
    elements, and [false] only once the whole timeout has gone by; a
    poll that throws counts as one that finds nothing. *)
Theorem waitForGameState_answers poll timeout st answer st' :
  waitForGameState poll timeout st = (Fulfilled answer, st') ->
  if answer
  then exists j d, poll j = Settles d (inl true)
  else clock (snd st) + timeout <= clock (snd st').
Proof.
  unfold waitForGameState, bind, world, get. cbn [fst snd]. intros Hrun.
  apply polling_answers in Hrun.
  - destruct answer.
    + destruct Hrun as (j & d & _ & Hfound). exists j, d. exact Hfound.
    + cbn [clock Logger.info Logger.write] in Hrun. lia.
  - cbn [snd clock Logger.info Logger.write]. lia.
Qed.

(** X27. The timeout of [waitForGameState] is looked at between polls only:
    a poll that never settles holds it for ever. *)
Theorem waitForGameState_has_no_guard poll timeout st :
  0 < timeout ->
  poll 1%nat = Hangs ->
  fst (waitForGameState poll timeout st) = Pending.
Proof.
  intros Hpos Hhang. unfold waitForGameState, bind, world, get. cbn [fst snd].
  destruct (Z.to_nat timeout) as [|fuel] eqn:E; [lia|].
  cbn [polling]. cbn [snd clock Logger.info Logger.write].
  replace (clock (snd st) - clock (snd st) <? timeout) with true
    by (symmetry; apply Z.ltb_lt; lia).
  rewrite Hhang. reflexivity.
Qed.

End WaitingClaims.

Section WaitingWitnesses.
Import GamePlayer.

(** Polls of 100 ms that find nothing, under a timeout of two seconds. *)
Lemma waitForGameState_answers_witness :
  2000 <= clock (snd (snd (waitForGameState (fun _ => Settles 100 (inl false)) 2000
                             (player0, world0)))).
Proof.
  apply (waitForGameState_answers (fun _ => Settles 100 (inl false)) 2000
           (player0, world0) false).
  vm_compute. reflexivity.
Defined.

Lemma waitForGameState_has_no_guard_witness :
  fst (waitForGameState (fun _ => Hangs) 10000 (player0, world0)) = Pending.
Proof.
  apply (waitForGameState_has_no_guard (fun _ => Hangs) 10000 (player0, world0));
    reflexivity.
Defined.

End WaitingWitnesses.
